(** * Eduripple backend: the curriculum extraction pipeline

    A shallow embedding of the parts of [cbc_parser.py], [curriculum_db.py]
    and [lesson_generator.py] that turn curriculum text into a record:
    the text normalizer, the field extractors, the competency classifier,
    the completeness score and the upsert.

    Python strings are sequences of Unicode code points, so a string is a
    list of code points here.  The character tables (white space, lower
    case, digits, word characters) follow CPython on the ASCII range;
    [isspace] also lists the Unicode white space above it; a code point
    above 127 is its own lower case and is neither a digit nor a word
    character. *)

From Stdlib Require Import String Ascii.
From Stdlib Require Import List NArith ZArith Bool Lia PeanoNat Permutation.
From Stdlib Require Import Floats.
Import ListNotations.

(** ** Python strings *)

Module Py.

Definition char := N.
Definition str := list char.

(** Source constants are written as UTF-8 literals and decoded to code
    points. *)
Fixpoint utf8_decode (bs : list N) : str :=
  match bs with
  | [] => []
  | b :: r =>
      if (b <? 128)%N then b :: utf8_decode r
      else if (b <? 224)%N then
        match r with
        | b1 :: r1 => ((b - 192) * 64 + (b1 - 128))%N :: utf8_decode r1
        | _ => []
        end
      else if (b <? 240)%N then
        match r with
        | b1 :: b2 :: r2 =>
            ((b - 224) * 4096 + (b1 - 128) * 64 + (b2 - 128))%N :: utf8_decode r2
        | _ => []
        end
      else
        match r with
        | b1 :: b2 :: b3 :: r3 =>
            ((b - 240) * 262144 + (b1 - 128) * 4096 + (b2 - 128) * 64 + (b3 - 128))%N
              :: utf8_decode r3
        | _ => []
        end
  end.

Definition u (s : string) : str :=
  utf8_decode (map N_of_ascii (list_ascii_of_string s)).

Definition ch (a : ascii) : char := N_of_ascii a.

Definition nl : char := 10%N.
Definition cr : char := 13%N.
Definition tab : char := 9%N.
Definition bullet : char := 8226%N.

Definition eqc (a b : N) : bool := (a =? b)%N.

Fixpoint eqs (a b : str) : bool :=
  match a, b with
  | [], [] => true
  | x :: a', y :: b' => eqc x y && eqs a' b'
  | _, _ => false
  end.

Definition in_range (lo hi c : N) : bool := ((lo <=? c) && (c <=? hi))%N.

(** [str.isspace] of one character, which is also [\s] of [re]. *)
Definition isspace (c : char) : bool :=
  in_range 9 13 c || in_range 28 32 c || eqc c 133 || eqc c 160
  || eqc c 5760 || in_range 8192 8202 c || eqc c 8232 || eqc c 8233
  || eqc c 8239 || eqc c 8287 || eqc c 12288.

Definition isupper (c : char) : bool := in_range 65 90 c.
Definition islower (c : char) : bool := in_range 97 122 c.
Definition isdigit (c : char) : bool := in_range 48 57 c.
Definition isword (c : char) : bool :=
  isupper c || islower c || isdigit c || eqc c 95.

Definition lower_char (c : char) : char := if isupper c then (c + 32)%N else c.
Definition upper_char (c : char) : char := if islower c then (c - 32)%N else c.

(** [s.lower()] *)
Definition lower (s : str) : str := map lower_char s.

Definition mem (c : char) (cs : str) : bool := existsb (eqc c) cs.

Fixpoint lstrip_by (p : char -> bool) (s : str) : str :=
  match s with
  | [] => []
  | c :: r => if p c then lstrip_by p r else s
  end.

Definition rstrip_by (p : char -> bool) (s : str) : str :=
  rev (lstrip_by p (rev s)).

Definition strip_by (p : char -> bool) (s : str) : str :=
  rstrip_by p (lstrip_by p s).

(** [s.strip()] *)
Definition strip (s : str) : str := strip_by isspace s.

(** [s.strip(chars)] *)
Definition strip_chars (chars s : str) : str := strip_by (fun c => mem c chars) s.

(** [s.startswith(p)] *)
Fixpoint startswith (s p : str) : bool :=
  match p, s with
  | [], _ => true
  | x :: p', y :: s' => eqc x y && startswith s' p'
  | _ :: _, [] => false
  end.

(** [s.endswith(p)] *)
Definition endswith (s p : str) : bool := startswith (rev s) (rev p).

(** [p in s] *)
Fixpoint contains (s p : str) : bool :=
  startswith s p ||
  match s with
  | [] => false
  | _ :: s' => contains s' p
  end.

(** [s.replace(old, new)] for a non-empty [old]: the occurrences are
    replaced from the left and do not overlap. *)
Fixpoint replace_go (fuel : nat) (old new s : str) : str :=
  match fuel with
  | O => s
  | S fuel' =>
      match s with
      | [] => []
      | c :: r =>
          if startswith s old
          then new ++ replace_go fuel' old new (skipn (length old) s)
          else c :: replace_go fuel' old new r
      end
  end.

Definition replace (old new s : str) : str :=
  match old with
  | [] => s
  | _ :: _ => replace_go (S (length s)) old new s
  end.

(** [s.split(sep)] for a one-character separator *)
Fixpoint split_char (sep : char) (s : str) : list str :=
  match s with
  | [] => [[]]
  | c :: r =>
      if eqc c sep then [] :: split_char sep r
      else match split_char sep r with
           | [] => [[c]]
           | w :: ws => (c :: w) :: ws
           end
  end.

(** [sep.join(parts)] *)
Fixpoint join (sep : str) (parts : list str) : str :=
  match parts with
  | [] => []
  | [p] => p
  | p :: ps => p ++ sep ++ join sep ps
  end.

(** [s.count(c)] for one character *)
Definition count_char (c : char) (s : str) : nat :=
  length (filter (eqc c) s).

(** [s[a:b]] for [0 <= a <= b] *)
Definition slice (s : str) (a b : nat) : str := firstn (b - a) (skipn a s).

(** The order-preserving deduplication loop that the extractors repeat:
    an item is kept when its key has not been seen. *)
Fixpoint dedup_by (key : str -> str) (seen : list str) (l : list str) : list str :=
  match l with
  | [] => []
  | x :: r =>
      if existsb (eqs (key x)) seen then dedup_by key seen r
      else x :: dedup_by key (key x :: seen) r
  end.

(** [list(dict.fromkeys(l))] *)
Definition fromkeys (l : list str) : list str := dedup_by (fun x => x) [] l.

(** [any(w in s for w in ws)] *)
Definition any_in (ws : list str) (s : str) : bool :=
  existsb (fun w => contains s w) ws.

End Py.

(** ** Python regular expressions

    The patterns of the source are kept as the strings the source passes to
    [re]; [parse] reads the syntax they use and [run] is a backtracking
    matcher with the priorities of [re]: alternatives left to right, greedy
    repetition longest first, lazy repetition shortest first. *)

Module Re.
Import Py.

Inductive citem :=
| CChar (c : char)
| CRange (lo hi : char)
| CSpace
| CDigit
| CWord.

Inductive re :=
| Eps
| Lit (c : char)
| Dot
| Cset (neg : bool) (items : list citem)
| Bol
| Eol
| Wordb
| Seq (a b : re)
| Alt (a b : re)
| Rep (greedy : bool) (lo : nat) (hi : option nat) (a : re)
| Group (n : nat) (a : re)
| Ahead (a : re)
| Never.

(** *** Reading a pattern *)

Definition isc (a : ascii) (c : char) : bool := eqc c (ch a).

Definition class_escape (e : char) : citem :=
  if isc "s" e then CSpace
  else if isc "d" e then CDigit
  else if isc "w" e then CWord
  else if isc "n" e then CChar nl
  else if isc "r" e then CChar cr
  else if isc "t" e then CChar tab
  else CChar e.

(** The inside of [[...]], after the opening bracket and the optional [^]. *)
Fixpoint parse_items (s : str) (acc : list citem) : option (list citem * str) :=
  match s with
  | [] => None
  | c :: r =>
      if isc "]" c then Some (rev acc, r)
      else if isc "\" c then
        match r with
        | e :: r' => parse_items r' (class_escape e :: acc)
        | [] => None
        end
      else
        match r with
        | d :: hi :: r' =>
            if isc "-" d && negb (isc "]" hi) && negb (isc "\" hi)
            then parse_items r' (CRange c hi :: acc)
            else parse_items r (CChar c :: acc)
        | _ => parse_items r (CChar c :: acc)
        end
  end.

Fixpoint parse_nat (s : str) (acc : nat) : nat * str :=
  match s with
  | c :: r => if isdigit c then parse_nat r (10 * acc + N.to_nat (c - 48)) else (acc, s)
  | [] => (acc, s)
  end.

(** The bounds of [{m}], [{m,}] and [{m,n}], after the opening brace. *)
Definition parse_bounds (s : str) : option (nat * option nat * str) :=
  match s with
  | c :: _ =>
      if isdigit c then
        let '(lo, r) := parse_nat s 0 in
        match r with
        | d :: r1 =>
            if isc "}" d then Some (lo, Some lo, r1)
            else if isc "," d then
              match r1 with
              | e :: r2 =>
                  if isc "}" e then Some (lo, None, r2)
                  else if isdigit e then
                    let '(hi, r3) := parse_nat r1 0 in
                    match r3 with
                    | g :: r4 => if isc "}" g then Some (lo, Some hi, r4) else None
                    | [] => None
                    end
                  else None
              | [] => None
              end
            else None
        | [] => None
        end
      else None
  | [] => None
  end.

Definition seq (a b : re) : re :=
  match b with
  | Eps => a
  | _ => Seq a b
  end.

(** A repetition is lazy when a [?] follows its operator. *)
Definition lazy_suffix (s : str) : bool * str :=
  match s with
  | c :: r => if isc "?" c then (false, r) else (true, s)
  | [] => (true, s)
  end.

Definition expect_close (x : option (re * str * nat)) (wrap : re -> re)
  : option (re * str * nat) :=
  match x with
  | Some (a, c :: r, n) => if isc ")" c then Some (wrap a, r, n) else None
  | _ => None
  end.

Definition escape_atom (e : char) : option re :=
  if isc "s" e then Some (Cset false [CSpace])
  else if isc "d" e then Some (Cset false [CDigit])
  else if isc "w" e then Some (Cset false [CWord])
  else if isc "b" e then Some Wordb
  else if isc "n" e then Some (Lit nl)
  else if isc "r" e then Some (Lit cr)
  else if isc "t" e then Some (Lit tab)
  else if isword e then None
  else Some (Lit e).

(** [n] counts the capturing groups opened so far. *)
Fixpoint parse_alt (fuel : nat) (s : str) (n : nat) {struct fuel}
  : option (re * str * nat) :=
  match fuel with
  | O => None
  | S f =>
      match parse_seq f s n with
      | Some (a, c :: r, n1) =>
          if isc "|" c then
            match parse_alt f r n1 with
            | Some (b, r2, n2) => Some (Alt a b, r2, n2)
            | None => None
            end
          else Some (a, c :: r, n1)
      | x => x
      end
  end

with parse_seq (fuel : nat) (s : str) (n : nat) {struct fuel}
  : option (re * str * nat) :=
  match fuel with
  | O => None
  | S f =>
      match s with
      | [] => Some (Eps, s, n)
      | c :: _ =>
          if isc "|" c || isc ")" c then Some (Eps, s, n)
          else
            match parse_quant f s n with
            | Some (a, r, n1) =>
                match parse_seq f r n1 with
                | Some (b, r2, n2) => Some (seq a b, r2, n2)
                | None => None
                end
            | None => None
            end
      end
  end

with parse_quant (fuel : nat) (s : str) (n : nat) {struct fuel}
  : option (re * str * nat) :=
  match fuel with
  | O => None
  | S f =>
      match parse_atom f s n with
      | Some (a, c :: r, n1) =>
          if isc "*" c then
            let '(g, r') := lazy_suffix r in Some (Rep g 0 None a, r', n1)
          else if isc "+" c then
            let '(g, r') := lazy_suffix r in Some (Rep g 1 None a, r', n1)
          else if isc "?" c then
            let '(g, r') := lazy_suffix r in Some (Rep g 0 (Some 1) a, r', n1)
          else if isc "{" c then
            match parse_bounds r with
            | Some (lo, hi, r1) =>
                let '(g, r') := lazy_suffix r1 in Some (Rep g lo hi a, r', n1)
            | None => None
            end
          else Some (a, c :: r, n1)
      | x => x
      end
  end

with parse_atom (fuel : nat) (s : str) (n : nat) {struct fuel}
  : option (re * str * nat) :=
  match fuel with
  | O => None
  | S f =>
      match s with
      | [] => None
      | c :: r =>
          if isc "(" c then
            match r with
            | q :: k :: r' =>
                if isc "?" q then
                  if isc ":" k then expect_close (parse_alt f r' n) (fun a => a)
                  else if isc "=" k then expect_close (parse_alt f r' n) Ahead
                  else None
                else expect_close (parse_alt f r (S n)) (Group (S n))
            | _ => None
            end
          else if isc "[" c then
            match r with
            | x :: r' =>
                if isc "^" x then
                  match parse_items r' [] with
                  | Some (items, r2) => Some (Cset true items, r2, n)
                  | None => None
                  end
                else
                  match parse_items r [] with
                  | Some (items, r2) => Some (Cset false items, r2, n)
                  | None => None
                  end
            | [] => None
            end
          else if isc "\" c then
            match r with
            | e :: r' =>
                match escape_atom e with
                | Some a => Some (a, r', n)
                | None => None
                end
            | [] => None
            end
          else if isc "." c then Some (Dot, r, n)
          else if isc "^" c then Some (Bol, r, n)
          else if isc "$" c then Some (Eol, r, n)
          else if isc "*" c || isc "+" c || isc "?" c || isc "{" c || isc "}" c
                  || isc "]" c then None
          else Some (Lit c, r, n)
      end
  end.

Definition parse (p : str) : option re :=
  match parse_alt (4 * length p + 8) p 0 with
  | Some (a, [], _) => Some a
  | _ => None
  end.

(** A pattern that [parse] does not read compiles to [Never]; every pattern
    of this file is read (see [patterns_parse]). *)
Definition compile (p : str) : re :=
  match parse p with
  | Some a => a
  | None => Never
  end.

(** [re.escape] *)
Definition escape (s : str) : str :=
  flat_map
    (fun c =>
       if mem c (u "()[]{}?*+-|^$\.&~# ") || in_range 9 13 c
       then [ch "\"; c] else [c])
    s.

(** *** Matching *)

Record flags := { ic : bool; ml : bool; ds : bool }.

Definition NOFLAG := {| ic := false; ml := false; ds := false |}.
Definition IGNORECASE := {| ic := true; ml := false; ds := false |}.
Definition MULTILINE := {| ic := false; ml := true; ds := false |}.
Definition IGNORECASE_MULTILINE := {| ic := true; ml := true; ds := false |}.
Definition IGNORECASE_DOTALL := {| ic := true; ml := false; ds := true |}.

(** A position in the subject: the character before it, the text from it
    on, and its index. *)
Record cursor := { prev : option char; rest : str; idx : nat }.

Definition caps := list (nat * (nat * nat)).

Definition start_of (s : str) : cursor := {| prev := None; rest := s; idx := 0 |}.

Definition advance (cu : cursor) : option (char * cursor) :=
  match rest cu with
  | [] => None
  | c :: r => Some (c, {| prev := Some c; rest := r; idx := S (idx cu) |})
  end.

Definition same_char (f : flags) (a b : char) : bool :=
  if ic f then eqc (lower_char a) (lower_char b) else eqc a b.

Definition item_has (f : flags) (c : char) (i : citem) : bool :=
  match i with
  | CChar a => same_char f a c
  | CRange lo hi =>
      in_range lo hi c
      || (ic f && (in_range lo hi (lower_char c) || in_range lo hi (upper_char c)))
  | CSpace => isspace c
  | CDigit => isdigit c
  | CWord => isword c
  end.

Definition at_word (o : option char) : bool :=
  match o with
  | Some c => isword c
  | None => false
  end.

Definition K := cursor -> caps -> option (cursor * caps).

Definition one (p : char -> bool) (k : K) (cu : cursor) (cp : caps)
  : option (cursor * caps) :=
  match advance cu with
  | Some (c, cu') => if p c then k cu' cp else None
  | None => None
  end.

Definition under (hi : option nat) (n : nat) : bool :=
  match hi with
  | Some h => n <? h
  | None => true
  end.

(** [run f r k cu cp]: the first way, in priority order, to match [r] at
    [cu] such that the continuation [k] accepts what follows.  An
    iteration of a repetition has to consume a character; every repeated
    expression of the source does. *)
Fixpoint run (f : flags) (r : re) (k : K) (cu : cursor) (cp : caps) {struct r}
  : option (cursor * caps) :=
  match r with
  | Eps => k cu cp
  | Never => None
  | Lit a => one (same_char f a) k cu cp
  | Dot => one (fun c => ds f || negb (eqc c nl)) k cu cp
  | Cset neg items => one (fun c => xorb neg (existsb (item_has f c) items)) k cu cp
  | Bol =>
      match prev cu with
      | None => k cu cp
      | Some c => if ml f && eqc c nl then k cu cp else None
      end
  | Eol =>
      match rest cu with
      | [] => k cu cp
      | c :: r' =>
          if eqc c nl && (ml f || match r' with [] => true | _ => false end)
          then k cu cp else None
      end
  | Wordb =>
      if xorb (at_word (prev cu)) (at_word (hd_error (rest cu)))
      then k cu cp else None
  | Seq a b => run f a (run f b k) cu cp
  | Alt a b =>
      match run f a k cu cp with
      | Some x => Some x
      | None => run f b k cu cp
      end
  | Group n a => run f a (fun cu' cp' => k cu' ((n, (idx cu, idx cu')) :: cp')) cu cp
  | Ahead a =>
      match run f a (fun cu' cp' => Some (cu', cp')) cu cp with
      | Some (_, cp') => k cu cp'
      | None => None
      end
  | Rep greedy lo hi a =>
      (fix loop (fuel n : nat) (cu : cursor) (cp : caps) {struct fuel}
         : option (cursor * caps) :=
         match fuel with
         | O => None
         | S fuel' =>
             if greedy then
               match
                 (if under hi n
                  then run f a (fun cu' cp' =>
                                  if idx cu' =? idx cu then None
                                  else loop fuel' (S n) cu' cp') cu cp
                  else None)
               with
               | Some x => Some x
               | None => if lo <=? n then k cu cp else None
               end
             else
               match (if lo <=? n then k cu cp else None) with
               | Some x => Some x
               | None =>
                   if under hi n
                   then run f a (fun cu' cp' =>
                                   if idx cu' =? idx cu then None
                                   else loop fuel' (S n) cu' cp') cu cp
                   else None
               end
         end) (S (length (rest cu))) 0 cu cp
  end.

Record mres := { m_start : nat; m_end : cursor; m_caps : caps }.

Definition accept : K := fun cu cp => Some (cu, cp).

Definition at_end : K :=
  fun cu cp => match rest cu with [] => Some (cu, cp) | _ => None end.

Definition try_at (f : flags) (r : re) (k : K) (cu : cursor) : option mres :=
  match run f r k cu [] with
  | Some (cu', cp) => Some {| m_start := idx cu; m_end := cu'; m_caps := cp |}
  | None => None
  end.

(** The leftmost match that starts at [cu] or later. *)
Fixpoint search_from (f : flags) (r : re) (pv : option char) (s : str) (i : nat)
  : option mres :=
  match try_at f r accept {| prev := pv; rest := s; idx := i |} with
  | Some m => Some m
  | None =>
      match s with
      | [] => None
      | c :: s' => search_from f r (Some c) s' (S i)
      end
  end.

Definition search_cursor (f : flags) (r : re) (cu : cursor) : option mres :=
  search_from f r (prev cu) (rest cu) (idx cu).

(** [re.match], [re.search] and [re.fullmatch] *)
Definition match_ (f : flags) (p : str) (s : str) : option mres :=
  try_at f (compile p) accept (start_of s).

Definition search (f : flags) (p : str) (s : str) : option mres :=
  search_cursor f (compile p) (start_of s).

Definition fullmatch (f : flags) (p : str) (s : str) : option mres :=
  try_at f (compile p) at_end (start_of s).

Definition found (m : option mres) : bool :=
  match m with Some _ => true | None => false end.

Definition m_stop (m : mres) : nat := idx (m_end m).

Fixpoint assoc (n : nat) (cp : caps) : option (nat * nat) :=
  match cp with
  | [] => None
  | (k, v) :: r => if k =? n then Some v else assoc n r
  end.

(** [m.group(n)] for [n >= 1] on the subject [s]; a group that took no part
    in the match gives the empty string where the source uses it. *)
Definition group (s : str) (m : mres) (n : nat) : str :=
  match assoc n (m_caps m) with
  | Some (a, b) => slice s a b
  | None => []
  end.

(** [m.group(0)] *)
Definition whole (s : str) (m : mres) : str := slice s (m_start m) (m_stop m).

(** The successive non-overlapping matches, left to right.  After a match
    the scan resumes at its end; after an empty match it resumes one
    character on. *)
Fixpoint finditer_go (fuel : nat) (f : flags) (r : re) (cu : cursor) : list mres :=
  match fuel with
  | O => []
  | S fuel' =>
      match search_cursor f r cu with
      | None => []
      | Some m =>
          if m_start m <? m_stop m
          then m :: finditer_go fuel' f r (m_end m)
          else
            match advance (m_end m) with
            | Some (_, cu') => m :: finditer_go fuel' f r cu'
            | None => [m]
            end
      end
  end.

Definition finditer (f : flags) (p : str) (s : str) : list mres :=
  finditer_go (S (length s)) f (compile p) (start_of s).

Fixpoint ngroups (r : re) : nat :=
  match r with
  | Seq a b | Alt a b => ngroups a + ngroups b
  | Rep _ _ _ a | Ahead a => ngroups a
  | Group _ a => S (ngroups a)
  | _ => 0
  end.

(** [re.findall] for a pattern with at most one capturing group: the
    group when there is one, the whole match otherwise. *)
Definition findall (f : flags) (p : str) (s : str) : list str :=
  map (fun m => if ngroups (compile p) =? 0 then whole s m else group s m 1)
      (finditer f p s).

(** [re.split] for a pattern without capturing groups; [maxsplit = 0]
    means no limit, as in [re]. *)
Fixpoint split_go (s : str) (from : nat) (ms : list mres) : list str :=
  match ms with
  | [] => [slice s from (length s)]
  | m :: ms' => slice s from (m_start m) :: split_go s (m_stop m) ms'
  end.

Definition split (p : str) (s : str) (maxsplit : nat) : list str :=
  let ms := finditer NOFLAG p s in
  split_go s 0 (if maxsplit =? 0 then ms else firstn maxsplit ms).

(** [re.sub] with a replacement that holds no group reference *)
Fixpoint sub_go (s : str) (repl : str) (from : nat) (ms : list mres) : str :=
  match ms with
  | [] => slice s from (length s)
  | m :: ms' => slice s from (m_start m) ++ repl ++ sub_go s repl (m_stop m) ms'
  end.

Definition sub (f : flags) (p : str) (repl : str) (s : str) : str :=
  sub_go s repl 0 (finditer f p s).

End Re.

(** ** cbc_parser.py *)

Module CbcParser.
Import Py Re.
Local Open Scope string_scope.
Local Open Scope nat_scope.
Local Open Scope list_scope.

Definition ul (l : list string) : list str := map u l.

Definition nonempty {A : Type} (l : list A) : bool :=
  match l with
  | [] => false
  | _ :: _ => true
  end.

Definition replacements : list (str * str) :=
  [ (u "â€™", u "'");
    (u "â€˜", u "'");
    (u "â€œ", [34%N]);
    (u "â€" ++ [157%N], [34%N]);
    (u "â€“", u "-");
    (u "â€”", u "-");
    (u "Â", []) ].

Definition normalize_text (text : str) : str :=
  let text := fold_left (fun t '(old, new) => replace old new t) replacements text in
  let text := replace [cr] [nl] text in
  sub NOFLAG (u "\n{3,}") [nl; nl] text.

Definition meaningful_line (line : str) : bool :=
  let cleaned := strip line in
  if negb (nonempty cleaned) then false
  else if found (fullmatch NOFLAG (u "[ivxlcdm]+") (lower cleaned)) then false
  else if found (fullmatch NOFLAG (u "\d+") cleaned) then false
  else if length cleaned <? 2 then false
  else true.

Definition clean_lines (text : str) : list str :=
  let lines := map strip (split_char nl text) in
  let lines := filter meaningful_line lines in
  map (fun line => strip (sub NOFLAG (u "\s+") (u " ") line)) lines.

Definition field_pattern (field : str) : str :=
  u "^" ++ escape field ++ u "\s*[:\-]?\s*(.+)$".

Fixpoint extract_first_field (lines : list str) (field : str) : str :=
  match lines with
  | [] => []
  | line :: lines' =>
      match match_ IGNORECASE (field_pattern field) line with
      | None => extract_first_field lines' field
      | Some m =>
          let value := strip_chars (u " .:-") (group line m 1) in
          let normalized := lower (strip_chars (u " ,:-") value) in
          if length value <? 3 then extract_first_field lines' field
          else if existsb (eqs normalized)
                    (ul ["the"; "the learner"; "learner"; "sub strand"; "strand"])
          then extract_first_field lines' field
          else if startswith normalized (u "the learner")
          then extract_first_field lines' field
          else if found (search IGNORECASE
                           (u "summary of|sub strands|grade\s*\d|\.\.\.") value)
          then extract_first_field lines' field
          else value
      end
  end.

Definition looks_like_heading (line : str) : bool :=
  let text := strip line in
  if (length text <? 6) || (120 <? length text) then false
  else if found (search IGNORECASE
                   (u "learner|suggested|assessment|question|experience") text)
  then false
  else found (match_ NOFLAG (u "^\d+\.\d+(?:\.\d+)?\s+") text).

(** [for x in l: if p(x): v = x; break], with [v] unchanged when no [x]
    passes. *)
Definition first_or (p : str -> bool) (l : list str) (v : str) : str :=
  match find p l with
  | Some x => x
  | None => v
  end.

Definition extract_strand_substrand (lines : list str) : str * str :=
  let strand := extract_first_field lines (u "Strand") in
  let substrand := extract_first_field lines (u "Sub-strand") in
  let headings := filter looks_like_heading lines in
  let strand :=
    if negb (nonempty strand)
    then first_or (fun line => found (match_ NOFLAG (u "^\d+\.\d+\s+") line))
                  headings strand
    else strand in
  let substrand :=
    if negb (nonempty substrand) && nonempty strand then
      match match_ NOFLAG (u "^(\d+\.\d+)\b") strand with
      | Some parent =>
          let prefix := group strand parent 1 ++ u "." in
          first_or (fun line => startswith line prefix) headings substrand
      | None => substrand
      end
    else substrand in
  (strand, substrand).

Definition len_between (lo hi : nat) (s : str) : bool :=
  (lo <=? length s) && (length s <=? hi).

Definition kiq_pattern : str :=
  u "(?:Key\s+Inquiry\s+Questions?|Inquiry\s+Questions?)\s*[:\-]?\s*([^?\n]*\?[^\n]*(?:\n[^?\n]*\?[^\n]*)*)".

Definition sentence_pattern : str := u "[A-Z][^?]*\?".

(** Pattern 1 of [extract_question_lines]: the labelled block *)
Definition questions_labelled (full_text : str) : list str :=
  flat_map
    (fun mtch =>
       filter (fun item => len_between 8 300 item && mem (ch "?") item)
              (map (fun item => strip (strip_chars (u " -•") item))
                   (split (u "\n|;") mtch 0)))
    (findall IGNORECASE_MULTILINE kiq_pattern full_text).

(** Pattern 2: the lines that hold a question mark *)
Definition questions_in_lines (lines : list str) : list str :=
  filter
    (fun line =>
       mem (ch "?") line
       && negb (found (search IGNORECASE
                         (u "table|contents|page \d|grade|subject|strand") line))
       && len_between 8 300 line)
    (map strip lines).

(** Pattern 3: the sentences of the text that end in a question mark *)
Definition questions_in_text (full_text : str) : list str :=
  filter
    (fun mtch =>
       len_between 8 300 mtch
       && negb (found (search IGNORECASE (u "table|page|grade|subject") mtch)))
    (map strip (findall NOFLAG sentence_pattern full_text)).

(** The closing loop of [extract_question_lines] *)
Fixpoint unique_questions (seen : list str) (questions : list str) : list str :=
  match questions with
  | [] => []
  | q :: rest =>
      let q_clean := strip (sub NOFLAG (u "\s+") (u " ") q) in
      let q_clean := if negb (endswith q_clean (u "?"))
                     then q_clean ++ u "?" else q_clean in
      let key := lower q_clean in
      if negb (existsb (eqs key) seen) && (8 <=? length q_clean)
      then q_clean :: unique_questions (key :: seen) rest
      else unique_questions seen rest
  end.

Definition extract_question_lines (lines : list str) (full_text : str) : list str :=
  let questions :=
    questions_labelled full_text ++ questions_in_lines lines
    ++ questions_in_text full_text in
  firstn 15 (unique_questions [] questions).

(** The loop [for item in ...: key = item.lower(); if key in seen: continue;
    seen.add(key); unique.append(item)] *)
Definition unique_lower (items : list str) : list str := dedup_by lower [] items.

Definition extract_block_items (text heading_regex stop_regex : str) : list str :=
  match search IGNORECASE heading_regex text with
  | None => []
  | Some heading =>
      let block := skipn (m_stop heading) text in
      let block :=
        match search IGNORECASE stop_regex block with
        | Some stop => firstn (m_start stop) block
        | None => block
        end in
      let candidates :=
        filter
          (fun line =>
             negb (length line <? 6)
             && negb (found (fullmatch NOFLAG (u "\d+") line))
             && negb (found (search IGNORECASE (u "^strand$|^sub[- ]?strand$") line)))
          (map (fun raw => strip_chars (u " -•" ++ [tab])
                             (sub NOFLAG (u "\s+") (u " ") raw))
               (split (u "\n|\r") block 0)) in
      firstn 40 (unique_lower candidates)
  end.

(** [re.split(r":", line, maxsplit=1)[-1].strip()] *)
Definition after_colon (line : str) : str :=
  strip (last (split (u ":") line 1) []).

Definition labelled_or_keyword (label keywords : str) (lines : list str) : list str :=
  flat_map
    (fun line =>
       if found (search IGNORECASE label line) then
         let value := after_colon line in
         if nonempty value then [value] else []
       else if found (search IGNORECASE keywords line) then [line]
       else [])
    lines.

Definition extract_competencies (lines : list str) : list str :=
  let found_ :=
    labelled_or_keyword
      (u "core competencies?\s*:")
      (u "critical thinking|communication and collaboration|digital literacy|self-efficacy|learning to learn|citizenship|creativity")
      lines in
  firstn 20 (unique_lower found_).

Definition extract_values (lines : list str) : list str :=
  let found_ :=
    labelled_or_keyword
      (u "values?\s*:")
      (u "respect|integrity|unity|responsibility|honesty|perseverance|patriotism")
      lines in
  firstn 20 (unique_lower found_).

Definition sle_pattern : str :=
  u "(?:Suggested\s+Learning\s+Experiences?|Learning\s+Experiences?)\s*[:\-]?\s*([^?]*?)(?=\n(?:Key\s+Inquiry|Core\s+Competencies|Values|Assessment|Specific\s+Learning|Strand|$))".

Definition activity_pattern : str :=
  u "(?:^|\n)\s*[•\-\*]\s+([A-Z][^?\n]{15,300})".

(** Pattern 1 of [extract_suggested_learning_experiences] *)
Definition experiences_labelled (text : str) : list str :=
  flat_map
    (fun mtch =>
       filter
         (fun item =>
            len_between 15 300 item
            && any_in (ul ["learner"; "listen"; "read"; "write"; "discuss";
                           "present"; "create"; "practice"; "observe";
                           "identify"; "demonstrate"; "group"; "pair"; "engage"])
                      (lower item))
         (map
            (fun item =>
               let item := strip (sub NOFLAG (u "\s+") (u " ") item) in
               let item := sub NOFLAG (u "^\d+\.\d+\.?\d*\s*") [] item in
               let item := sub NOFLAG (u "^\(\d+\s+lessons?\)\s*") [] item in
               sub NOFLAG (u "^•\s*") [] item)
            (split (u "\n\s*[•\-\*]\s+|\n\s*\d+\)[:\s]+|\n(?=[A-Z])") mtch 0)))
    (findall IGNORECASE_DOTALL sle_pattern text).

(** Pattern 2 *)
Definition experiences_in_lines (text : str) : list str :=
  filter
    (fun line =>
       len_between 15 300 line
       && any_in (ul ["the learner"; "learners"; "listen to"; "read"; "write";
                      "discuss"; "group activity"; "pair work"; "engage";
                      "observe"; "reflect"; "role play"])
                 (lower line)
       && negb (found (search NOFLAG
                         (u "strand|page|assessment|rubric|grade|subject|table")
                         (lower line))))
    (map strip (split_char nl text)).

(** Pattern 3 *)
Definition experiences_bulleted (text : str) : list str :=
  map strip
    (filter
       (fun mtch =>
          any_in (ul ["listen"; "read"; "write"; "discuss"; "practice";
                      "observe"; "identify"; "learner"])
                 (lower mtch))
       (findall MULTILINE activity_pattern text)).

(** The closing loop; the key is the first 80 characters, lower case. *)
Fixpoint unique_experiences (seen : list str) (experiences : list str) : list str :=
  match experiences with
  | [] => []
  | e :: rest =>
      let e := strip (sub NOFLAG (u "\s+") (u " ") e) in
      if 15 <=? length e then
        let key := firstn 80 (lower e) in
        if negb (existsb (eqs key) seen)
        then e :: unique_experiences (key :: seen) rest
        else unique_experiences seen rest
      else unique_experiences seen rest
  end.

Definition extract_suggested_learning_experiences (text : str) : list str :=
  let experiences :=
    experiences_labelled text ++ experiences_in_lines text
    ++ experiences_bulleted text in
  firstn 15 (unique_experiences [] experiences).

(** First tier of [extract_learning_outcomes] *)
Definition outcomes_from_heading (text : str) : list str :=
  extract_block_items text
    (u "specific\s+learning\s+outcomes?\s*[:\-]?")
    (u "key\s+inquiry\s+questions?|suggested\s+learning\s+experiences|core\s+competencies|values").

Definition by_end_pattern : str :=
  u "By\s+the\s+end[^\n:]{0,120}:\s*(.+?)(?=\n\s*(?:Core competencies|Values|Key Inquiry|Suggested Learning|Strand|Sub Strand|$))".

Definition outcome_verbs : str :=
  u "^(identify|explain|describe|demonstrate|apply|discuss|use|analyse|analyze|construct|create|differentiate|outline|state|classify|compare)\b".

(** Second tier: [captured], built from [by_end_blocks] *)
Definition outcomes_captured (by_end_blocks : list str) : list str :=
  flat_map
    (fun block =>
       filter
         (fun line =>
            negb ((length line <? 10) || (220 <? length line))
            && negb (found (search IGNORECASE
                              (u "suggested learning|core competencies|key inquiry")
                              line))
            && found (search IGNORECASE outcome_verbs line))
         (map (fun part => strip_chars (u " .:-") (sub NOFLAG (u "\s+") (u " ") part))
              (split (u "\n|\r|\d+\.\s+|[•\-]\s+") block 0)))
    by_end_blocks.

(** Third tier: the lines that start with an action verb *)
Definition outcomes_fallback (lines : list str) : list str :=
  let candidates :=
    filter
      (fun line =>
         negb ((length line <? 20) || (220 <? length line))
         && negb (found (search IGNORECASE
                           (u "table of contents|summary of strands|lesson allocation|general learning outcomes")
                           line))
         && found (match_ NOFLAG
                     (u "^(Identify|Explain|Describe|Demonstrate|Apply|Discuss|Use|Analyse|Analyze|Construct|Create|Differentiate)\b")
                     line))
      (map (fun line => strip (sub NOFLAG (u "^\d+\.\s*") [] line)) lines) in
  firstn 30 (unique_lower candidates).

Definition extract_learning_outcomes (text : str) (lines : list str) : list str :=
  let from_heading := outcomes_from_heading text in
  if nonempty from_heading then from_heading
  else
    let by_end_blocks := findall IGNORECASE_DOTALL by_end_pattern text in
    let captured := outcomes_captured by_end_blocks in
    if nonempty by_end_blocks && nonempty captured
    then firstn 30 (unique_lower captured)
    else outcomes_fallback lines.

Definition curriculum_keywords : list str :=
  ul ["strand"; "sub strand"; "substrand"; "learning outcome"; "key inquiry";
      "core competency"; "value"; "suggested learning"; "assessment";
      "specific learning outcome"; "competencies"].

Definition is_relevant_page (page_text : str) : bool :=
  let text_lower := lower page_text in
  if found (search NOFLAG
              (u "table of contents|contents|acknowledgements|introduction|disclaimer")
              text_lower)
  then false
  else if length (strip page_text) <? 100 then false
  else if count_char nl page_text <? 3 then false
  else any_in curriculum_keywords text_lower.

(** A page of the opened document: [get_text()] returns its text or
    raises. *)
Inductive page :=
| Page (text : str)
| Unreadable.

Definition get_text (p : page) : option str :=
  match p with
  | Page t => Some t
  | Unreadable => None
  end.

(** The pages from index 11 on; a page whose text cannot be read is
    skipped, a page that is blank after normalization is left out. *)
Definition extract_relevant_pages (doc : list page) : list str :=
  flat_map
    (fun p =>
       match get_text p with
       | Some text =>
           let normalized := normalize_text text in
           if nonempty (strip normalized) then [normalized] else []
       | None => []
       end)
    (skipn 11 doc).

(** [[normalize_text(page.get_text()) for page in doc]]; nothing catches
    an exception of [get_text] here, so it leaves [parse_pdf]. *)
Fixpoint all_pages (doc : list page) : option (list str) :=
  match doc with
  | [] => Some []
  | p :: doc' =>
      match get_text p, all_pages doc' with
      | Some text, Some rest => Some (normalize_text text :: rest)
      | _, _ => None
      end
  end.

(** [relevant_pages] as [parse_pdf] has it when it builds [full_text] *)
Definition relevant_pages (doc : list page) : option (list str) :=
  let relevant_pages := extract_relevant_pages doc in
  if negb (nonempty relevant_pages) then all_pages doc
  else Some relevant_pages.

Record parsed := {
  p_strand : str;
  p_substrand : str;
  p_learning_outcomes : list str;
  p_key_inquiry_questions : list str;
  p_core_competencies : list str;
  p_values : list str;
  p_suggested_learning_experiences : list str
}.

(** The fields [parse_pdf] extracts from the text of its pages.  The
    subject, the grade and the source file come from the path and are not
    part of this record. *)
Definition parse_text (pages : list str) : parsed :=
  let full_text := join [nl] pages in
  let full_text := normalize_text full_text in
  let lines := clean_lines full_text in
  let '(strand, substrand) := extract_strand_substrand lines in
  {| p_strand := strand;
     p_substrand := substrand;
     p_learning_outcomes := extract_learning_outcomes full_text lines;
     p_key_inquiry_questions := extract_question_lines lines full_text;
     p_core_competencies := extract_competencies lines;
     p_values := extract_values lines;
     p_suggested_learning_experiences :=
       extract_suggested_learning_experiences full_text |}.

(** [None] stands for an exception that leaves [parse_pdf]. *)
Definition parse_pdf (doc : list page) : option parsed :=
  option_map parse_text (relevant_pages doc).

(** *** Calls with [None] in place of an argument

    [None] stands for Python's [None]; the exception is the one raised by
    the first operation of the function that touches the argument. *)

Inductive exn := AttributeError | TypeError.

Inductive result (A : Type) :=
| Ok (a : A)
| Raise (e : exn).
Arguments Ok {A} a.
Arguments Raise {A} e.

(** [text.replace] on [None] raises [AttributeError]. *)
Definition call_normalize_text (text : option str) : result str :=
  match text with
  | Some t => Ok (normalize_text t)
  | None => Raise AttributeError
  end.

(** [for line in lines] on [None] raises [TypeError]. *)
Definition call_extract_strand_substrand (lines : option (list str))
  : result (str * str) :=
  match lines with
  | Some l => Ok (extract_strand_substrand l)
  | None => Raise TypeError
  end.

(** [re.findall(kiq_pattern, full_text)] comes first and raises
    [TypeError] on [None]; [for line in lines] comes next. *)
Definition call_extract_question_lines (lines : option (list str))
  (full_text : option str) : result (list str) :=
  match full_text, lines with
  | Some t, Some l => Ok (extract_question_lines l t)
  | _, _ => Raise TypeError
  end.

Definition call_extract_competencies (lines : option (list str))
  : result (list str) :=
  match lines with
  | Some l => Ok (extract_competencies l)
  | None => Raise TypeError
  end.

Definition call_extract_values (lines : option (list str)) : result (list str) :=
  match lines with
  | Some l => Ok (extract_values l)
  | None => Raise TypeError
  end.

(** [if not isinstance(text, str): return []] *)
Definition call_extract_suggested_learning_experiences (text : option str)
  : result (list str) :=
  match text with
  | Some t => Ok (extract_suggested_learning_experiences t)
  | None => Ok []
  end.

(** [re.search(heading_regex, text)] raises [TypeError] on [None]; the
    lines are iterated only when the first two tiers give nothing. *)
Definition call_extract_learning_outcomes (text : option str)
  (lines : option (list str)) : result (list str) :=
  match text with
  | None => Raise TypeError
  | Some t =>
      let from_heading := outcomes_from_heading t in
      if nonempty from_heading then Ok from_heading
      else
        let by_end_blocks := findall IGNORECASE_DOTALL by_end_pattern t in
        let captured := outcomes_captured by_end_blocks in
        if nonempty by_end_blocks && nonempty captured
        then Ok (firstn 30 (unique_lower captured))
        else
          match lines with
          | Some l => Ok (outcomes_fallback l)
          | None => Raise TypeError
          end
  end.

End CbcParser.

(** ** curriculum_db.py *)

Module CurriculumDb.
Import Py.
Local Open Scope nat_scope.
Local Open Scope list_scope.

(** A key of the [data] dictionary: absent, bound to [None], or bound to a
    value. *)
Inductive entry (A : Type) :=
| Missing
| IsNone
| Val (a : A).
Arguments Missing {A}.
Arguments IsNone {A}.
Arguments Val {A} a.

(** [data.get(key)] *)
Definition get {A : Type} (e : entry A) : option A :=
  match e with
  | Val a => Some a
  | _ => None
  end.

(** [data.get(key, default)] *)
Definition get_default {A : Type} (e : entry A) (default : A) : option A :=
  match e with
  | Val a => Some a
  | IsNone => None
  | Missing => Some default
  end.

(** [x or []], which is also [x or ''] *)
Definition or_empty {A : Type} (x : option (list A)) : list A :=
  match x with
  | Some l => l
  | None => []
  end.

Record data := {
  strand : entry str;
  substrand : entry str;
  learning_outcomes : entry (list str);
  key_inquiry_questions : entry (list str);
  suggested_learning_experiences : entry (list str);
  core_competencies : entry (list str);
  values : entry (list str)
}.

Definition checks : list (data -> bool) :=
  [ (fun d => 0 <? length (strip (or_empty (get (strand d)))));
    (fun d => 0 <? length (strip (or_empty (get (substrand d)))));
    (fun d => 2 <=? length (or_empty (get (learning_outcomes d))));
    (fun d => 3 <=? length (or_empty (get (key_inquiry_questions d))));
    (fun d => 5 <=? length (or_empty (get (suggested_learning_experiences d))));
    (fun d => 2 <=? length (or_empty (get (core_competencies d))));
    (fun d => 2 <=? length (or_empty (get (values d)))) ].

(** An [int] as the [float] that [/] and [*] convert it to *)
Definition float_of_nat (n : nat) : float :=
  PrimFloat.of_uint63 (Uint63.of_Z (Z.of_nat n)).

(** [(completed / len(checks)) * 100] in binary64, as Python computes it *)
Definition calculate_completeness (d : data) : float :=
  let completed := length (filter (fun check => check d) checks) in
  PrimFloat.mul
    (PrimFloat.div (float_of_nat completed) (float_of_nat (length checks)))
    (float_of_nat 100).

(** The document that [json.dumps] writes and [json.loads] reads back: a
    list of strings, or [null] for [None]. *)
Inductive json :=
| JNull
| JArray (items : list str).

Definition dumps (x : option (list str)) : json :=
  match x with
  | Some l => JArray l
  | None => JNull
  end.

Definition loads (j : json) : option (list str) :=
  match j with
  | JArray l => Some l
  | JNull => None
  end.

(** A row of the [curriculum] table; a [TEXT] column holds a string or
    [NULL].  The columns [last_updated] and [notes] are left out: the
    first is a clock reading, the second is not written by the upsert. *)
Record row := {
  r_id : nat;
  r_subject : str;
  r_grade : str;
  r_strand : option str;
  r_substrand : option str;
  r_learning_outcomes : option json;
  r_key_inquiry_questions : option json;
  r_suggested_learning_experiences : option json;
  r_core_competencies : option json;
  r_curriculum_values : option json;
  r_status : str;
  r_completeness_score : float
}.

(** The table and the counter of [AUTOINCREMENT] *)
Record db := { rows : list row; next_id : nat }.

Definition same_key (subject grade : str) (r : row) : bool :=
  eqs (r_subject r) subject && eqs (r_grade r) grade.

(** The values bound to the named parameters of the statement *)
Definition data_to_store (id : nat) (subject grade : str) (d : data) (status : str)
  : row :=
  {| r_id := id;
     r_subject := subject;
     r_grade := grade;
     r_strand := get_default (strand d) [];
     r_substrand := get_default (substrand d) [];
     r_learning_outcomes := Some (dumps (get_default (learning_outcomes d) []));
     r_key_inquiry_questions :=
       Some (dumps (get_default (key_inquiry_questions d) []));
     r_suggested_learning_experiences :=
       Some (dumps (get_default (suggested_learning_experiences d) []));
     r_core_competencies := Some (dumps (get_default (core_competencies d) []));
     r_curriculum_values := Some (dumps (get_default (values d) []));
     r_status := status;
     r_completeness_score := calculate_completeness d |}.

(** [ON CONFLICT(subject, grade) DO UPDATE SET ...]: the row keeps its id
    and its key and takes every other column from the statement. *)
Fixpoint upsert (rs : list row) (subject grade : str) (d : data) (status : str)
  : option (list row) :=
  match rs with
  | [] => None
  | r :: rs' =>
      if same_key subject grade r
      then Some (data_to_store (r_id r) (r_subject r) (r_grade r) d status :: rs')
      else option_map (cons r) (upsert rs' subject grade d status)
  end.

(** The statement of [insert_curriculum] on the table; the returned
    [lastrowid] is not modelled. *)
Definition insert_curriculum (t : db) (subject grade : str) (d : data)
  (status : str) : db :=
  match upsert (rows t) subject grade d status with
  | Some rs => {| rows := rs; next_id := next_id t |}
  | None =>
      {| rows := rows t ++ [data_to_store (next_id t) subject grade d status];
         next_id := S (next_id t) |}
  end.

(** [SELECT * FROM curriculum WHERE subject = ? AND grade = ?] with
    [fetchone] *)
Definition select (t : db) (subject grade : str) : option row :=
  find (same_key subject grade) (rows t).

(** [json.loads(row[column] or '[]')] *)
Definition loads_or_empty (col : option json) : option (list str) :=
  match col with
  | Some j => loads j
  | None => Some []
  end.

Definition of_option {A : Type} (x : option A) : entry A :=
  match x with
  | Some a => Val a
  | None => IsNone
  end.

Record parsed_row := {
  pr_id : nat;
  pr_subject : str;
  pr_grade : str;
  pr_fields : data;
  pr_status : str;
  pr_completeness_score : float
}.

Definition parse_curriculum_row (r : row) : parsed_row :=
  {| pr_id := r_id r;
     pr_subject := r_subject r;
     pr_grade := r_grade r;
     pr_fields :=
       {| strand := of_option (r_strand r);
          substrand := of_option (r_substrand r);
          learning_outcomes := of_option (loads_or_empty (r_learning_outcomes r));
          key_inquiry_questions :=
            of_option (loads_or_empty (r_key_inquiry_questions r));
          suggested_learning_experiences :=
            of_option (loads_or_empty (r_suggested_learning_experiences r));
          core_competencies := of_option (loads_or_empty (r_core_competencies r));
          values := of_option (loads_or_empty (r_curriculum_values r)) |};
     pr_status := r_status r;
     pr_completeness_score := r_completeness_score r |}.

(** [get_curriculum(subject, grade)] with both arguments given *)
Definition get_curriculum (t : db) (subject grade : str) : option parsed_row :=
  option_map parse_curriculum_row (select t subject grade).

End CurriculumDb.

(** ** lesson_generator.py *)

Module LessonGenerator.
Import Py Re.
Local Open Scope string_scope.
Local Open Scope nat_scope.
Local Open Scope list_scope.

Definition ul (l : list string) : list str := map u l.

Definition nonempty {A : Type} (l : list A) : bool :=
  match l with
  | [] => false
  | _ :: _ => true
  end.

(** An element of [items]: [None], a string, or an object of another type
    with its truth value. *)
Inductive value :=
| VNone
| VStr (s : str)
| VOther (truthy : bool).

Record buckets := {
  competencies : list str;
  values : list str;
  links : list str;
  pcis : list str
}.

Definition no_buckets : buckets :=
  {| competencies := []; values := []; links := []; pcis := [] |}.

Definition value_keywords : list str :=
  ul ["respect"; "responsibility"; "unity"; "love"; "patriotism";
      "integrity"; "peace"; "social justice"; "humility"; "cooperation";
      "self-esteem"; "self-confidence"; "sharing"; "caring"].

Definition subject_names : list str :=
  ul ["kiswahili"; "french"; "german"; "arabic"; "indigenous languages";
      "english"; "mathematics"; "integrated science"; "social studies";
      "pre-technical"; "pre technical"; "creative arts"; "agriculture";
      "nutrition"; "cre"; "ire"; "hre"].

Definition teach_words : list str :=
  ul ["teach"; "learnt"; "learn"; "relate"; "use "; "used in";
      "apply"; "language"; "skills"].

Definition is_link (lowered : str) : bool :=
  found (match_ NOFLAG (u "^links?\s+to\s+(other\s+)?(subject|learning)") lowered).

Definition clean_link (text : str) : str :=
  strip (sub IGNORECASE
           (u "^links?\s+to\s+(?:other\s+)?(?:subjects?|learning\s+areas?)\s*:?\s*")
           [] text).

Definition is_pci (lowered : str) : bool :=
  found (match_ NOFLAG (u "^pertinent\s+(and\s+)?contemporary\s+issues") lowered)
  || startswith lowered (u "pci").

Definition clean_pci (text : str) : str :=
  strip (sub IGNORECASE
           (u "^pertinent\s+(?:and\s+)?contemporary\s+issues\s*(?:\(?pcis?\)?)?\s*:?\s*")
           [] text).

Definition is_values (lowered : str) : bool :=
  found (match_ NOFLAG (u "^values?\s*:?\s+") lowered).

Definition clean_values (text : str) : str :=
  strip (sub IGNORECASE (u "^values?\s*:?\s*") [] text).

Definition append_competency (b : buckets) (x : str) : buckets :=
  {| competencies := competencies b ++ [x]; values := values b;
     links := links b; pcis := pcis b |}.

Definition append_value (b : buckets) (x : str) : buckets :=
  {| competencies := competencies b; values := values b ++ [x];
     links := links b; pcis := pcis b |}.

Definition append_link (b : buckets) (x : str) : buckets :=
  {| competencies := competencies b; values := values b;
     links := links b ++ [x]; pcis := pcis b |}.

Definition append_pci (b : buckets) (x : str) : buckets :=
  {| competencies := competencies b; values := values b;
     links := links b; pcis := pcis b ++ [x] |}.

(** One turn of the loop [for item in items] *)
Definition classify_item (b : buckets) (item : value) : buckets :=
  match item with
  | VNone => b
  | VOther _ => b
  | VStr s =>
      if negb (nonempty s) || (length (strip s) <? 4) then b
      else
        let text := strip s in
        let lowered := lower text in
        if is_link lowered then
          let cleaned := clean_link text in
          if nonempty cleaned then append_link b cleaned else b
        else if contains lowered (u "link to other")
                || contains lowered (u "links to other")
        then append_link b text
        else if is_pci lowered then
          let cleaned := clean_pci text in
          if nonempty cleaned then append_pci b cleaned else b
        else if is_values lowered then
          let cleaned := clean_values text in
          if nonempty cleaned then append_value b cleaned else b
        else if any_in value_keywords lowered && (length text <? 200)
        then append_value b text
        else if (length text <? 80) && any_in subject_names lowered
                && (any_in teach_words lowered || (length text <? 30))
        then append_link b text
        else append_competency b text
  end.

Definition _classify_competency_items (items : list value)
  : list str * list str * list str * list str :=
  let b := fold_left classify_item items no_buckets in
  (fromkeys (competencies b), fromkeys (values b),
   fromkeys (links b), fromkeys (pcis b)).

(** [buckets[j].append(x)]; the index is below the number of buckets
    wherever the source computes it. *)
Fixpoint append_at {A : Type} (j : nat) (x : A) (bs : list (list A))
  : list (list A) :=
  match bs, j with
  | [], _ => []
  | b :: r, O => (b ++ [x]) :: r
  | b :: r, S j' => b :: append_at j' x r
  end.

(** [for i, item in enumerate(items): buckets[i % num_buckets].append(item)],
    from index [i] on *)
Fixpoint distribute_from {A : Type} (num_buckets i : nat) (items : list A)
  (bs : list (list A)) : list (list A) :=
  match items with
  | [] => bs
  | item :: rest =>
      distribute_from num_buckets (S i) rest
        (append_at (i mod num_buckets) item bs)
  end.

Definition _distribute_items {A : Type} (items : list A) (num_buckets : Z)
  : list (list A) :=
  if negb (nonempty items) || (num_buckets <=? 0)%Z
  then repeat [] (Z.to_nat (Z.max 1 num_buckets))
  else distribute_from (Z.to_nat num_buckets) 0 items
         (repeat [] (Z.to_nat num_buckets)).

(** [strand_text] is a string or [None]; [int] reads the decimal digits
    that the group holds. *)
Definition _extract_lesson_count (strand_text : option str) : nat :=
  match strand_text with
  | None => 1
  | Some text =>
      if negb (nonempty text) then 1
      else
        match search IGNORECASE (u "\(\s*(\d+)\s*lessons?\s*\)") text with
        | Some m => Nat.max 1 (fst (parse_nat (group text m 1) 0))
        | None => 0
        end
  end.


End LessonGenerator.

(** * What the properties speak of

    The predicates of the properties and the inputs they are evaluated at. *)

Section PatternTerms.
Import Py Re CbcParser.
Local Open Scope string_scope.
Local Open Scope list_scope.

(** Every pattern that the functions above hand to [re] *)
Definition source_patterns : list str :=
  [ kiq_pattern;
    sentence_pattern;
    sle_pattern;
    activity_pattern;
    by_end_pattern;
    outcome_verbs;
    field_pattern (u "Strand");
    field_pattern (u "Sub-strand");
    u "\n{3,}";
    u "[ivxlcdm]+";
    u "\d+";
    u "\s+";
    u "summary of|sub strands|grade\s*\d|\.\.\.";
    u "learner|suggested|assessment|question|experience";
    u "^\d+\.\d+(?:\.\d+)?\s+";
    u "^\d+\.\d+\s+";
    u "^(\d+\.\d+)\b";
    u "\n|;";
    u "table|contents|page \d|grade|subject|strand";
    u "table|page|grade|subject";
    u "^strand$|^sub[- ]?strand$";
    u "\n|\r";
    u ":";
    u "^\d+\.\d+\.?\d*\s*";
    u "^\(\d+\s+lessons?\)\s*";
    u "^•\s*";
    u "\n\s*[•\-\*]\s+|\n\s*\d+\)[:\s]+|\n(?=[A-Z])";
    u "strand|page|assessment|rubric|grade|subject|table";
    u "suggested learning|core competencies|key inquiry";
    u "\n|\r|\d+\.\s+|[•\-]\s+";
    u "table of contents|summary of strands|lesson allocation|general learning outcomes";
    u "^(Identify|Explain|Describe|Demonstrate|Apply|Discuss|Use|Analyse|Analyze|Construct|Create|Differentiate)\b";
    u "^\d+\.\s*";
    u "table of contents|contents|acknowledgements|introduction|disclaimer";
    u "^links?\s+to\s+(other\s+)?(subject|learning)";
    u "^links?\s+to\s+(?:other\s+)?(?:subjects?|learning\s+areas?)\s*:?\s*";
    u "^pertinent\s+(and\s+)?contemporary\s+issues";
    u "^pertinent\s+(?:and\s+)?contemporary\s+issues\s*(?:\(?pcis?\)?)?\s*:?\s*";
    u "^values?\s*:?\s+";
    u "^values?\s*:?\s*";
    u "core competencies?\s*:";
    u "critical thinking|communication and collaboration|digital literacy|self-efficacy|learning to learn|citizenship|creativity";
    u "values?\s*:";
    u "respect|integrity|unity|responsibility|honesty|perseverance|patriotism";
    u "specific\s+learning\s+outcomes?\s*[:\-]?";
    u "key\s+inquiry\s+questions?|suggested\s+learning\s+experiences|core\s+competencies|values" ].

End PatternTerms.

Section CompletenessTerms.
Import Py CurriculumDb.
Local Open Scope string_scope.
Local Open Scope nat_scope.
Local Open Scope list_scope.

Definition b2n (b : bool) : nat := if b then 1 else 0.

(** A text field passes when it is bound to a string that is not empty
    once its white space is stripped. *)
Definition text_set (e : entry str) : bool :=
  match e with
  | Val s => negb (Nat.eqb (length (strip s)) 0)
  | _ => false
  end.

(** The number of items of a list field; a field that is absent or [None]
    has none. *)
Definition count (e : entry (list str)) : nat :=
  match e with
  | Val l => length l
  | _ => 0
  end.

(** The seven checks, as the specification words them *)
Definition passed (d : data) : nat :=
  b2n (text_set (strand d)) + b2n (text_set (substrand d))
  + b2n (2 <=? count (learning_outcomes d))
  + b2n (3 <=? count (key_inquiry_questions d))
  + b2n (5 <=? count (suggested_learning_experiences d))
  + b2n (2 <=? count (core_competencies d))
  + b2n (2 <=? count (values d)).

(** [(n / 7) * 100] in binary64 *)
Definition score_of (n : nat) : float :=
  PrimFloat.mul (PrimFloat.div (float_of_nat n) (float_of_nat 7)) (float_of_nat 100).

(** The checks with "non-empty" read to the letter: a text field passes
    when it is bound to a string of length above zero. *)
Definition text_nonempty (e : entry str) : bool :=
  match e with
  | Val s => negb (Nat.eqb (length s) 0)
  | _ => false
  end.

Definition passed_literal (d : data) : nat :=
  b2n (text_nonempty (strand d)) + b2n (text_nonempty (substrand d))
  + b2n (2 <=? count (learning_outcomes d))
  + b2n (3 <=? count (key_inquiry_questions d))
  + b2n (5 <=? count (suggested_learning_experiences d))
  + b2n (2 <=? count (core_competencies d))
  + b2n (2 <=? count (values d)).

(** The record of the scenario: strand set, sub-strand empty, 2 learning
    outcomes, no inquiry question, 6 experiences, 3 competencies, no
    value. *)
Definition scenario_record : data :=
  {| strand := Val (u "Numbers");
     substrand := Val [];
     learning_outcomes := Val [u "a"; u "b"];
     key_inquiry_questions := Val [];
     suggested_learning_experiences := Val [u "a"; u "b"; u "c"; u "d"; u "e"; u "f"];
     core_competencies := Val [u "a"; u "b"; u "c"];
     values := Val [] |}.

(** A record whose strand and sub-strand are one blank each *)
Definition blank_record : data :=
  {| strand := Val (u " ");
     substrand := Val (u " ");
     learning_outcomes := Val [u "a"; u "b"];
     key_inquiry_questions := Val [u "a"; u "b"; u "c"];
     suggested_learning_experiences := Val [u "a"; u "b"; u "c"; u "d"; u "e"];
     core_competencies := Val [u "a"; u "b"];
     values := Val [u "a"; u "b"] |}.

(** The stored score of a row agrees with its stored fields. *)
Definition score_fresh (r : row) : Prop :=
  pr_completeness_score (parse_curriculum_row r)
  = calculate_completeness (pr_fields (parse_curriculum_row r)).

End CompletenessTerms.

Section ClassifierTerms.
Import Py LessonGenerator.
Local Open Scope string_scope.
Local Open Scope nat_scope.
Local Open Scope list_scope.

(** No string of [l1] equals a string of [l2] when case is ignored. *)
Definition disjoint_ci (l1 l2 : list str) : Prop :=
  forall x y, In x l1 -> In y l2 -> lower x <> lower y.

(** No two items of [l] are equal when case is ignored. *)
Definition nodup_ci (l : list str) : Prop := NoDup (map lower l).

Definition strs (l : list string) : list value := map (fun s => VStr (u s)) l.

Definition mixed_items : list value :=
  strs ["Teamwork"; "teamwork"; "Respect for all";
        "Link to other subjects: Respect for all"].

(** The four lists are pairwise disjoint and each is free of duplicates,
    case being ignored throughout. *)
Definition disjoint_and_deduplicated_ci (items : list value) : Prop :=
  let '(c, v, l, p) := _classify_competency_items items in
  disjoint_ci c v /\ disjoint_ci c l /\ disjoint_ci c p
  /\ disjoint_ci v l /\ disjoint_ci v p /\ disjoint_ci l p
  /\ nodup_ci c /\ nodup_ci v /\ nodup_ci l /\ nodup_ci p.

(** The first occurrence of every string of [l], in the order of [l] *)
Fixpoint firsts (l : list str) : list str :=
  match l with
  | [] => []
  | x :: r => x :: filter (fun y => negb (eqs y x)) (firsts r)
  end.

Inductive category := Competency | Value | Link | Pci.

Definition append_to (c : category) (b : buckets) (x : str) : buckets :=
  match c with
  | Competency => append_competency b x
  | Value => append_value b x
  | Link => append_link b x
  | Pci => append_pci b x
  end.






End ClassifierTerms.

Section ExtractorTerms.
Import Py CbcParser.
Local Open Scope string_scope.
Local Open Scope nat_scope.
Local Open Scope list_scope.

(** A heading and 31 distinct lines under it *)
Definition thirty_one_outcomes : str :=
  u "Specific Learning Outcomes:"
  ++ flat_map (fun c => nl :: u "outcome " ++ [c])
              (u "abcdefghijklmnopqrstuvwxyz01234").

(** The text of the scenario of the specification *)
Definition scenario_text : str :=
  u "Strand: Numbers
Sub-strand: Fractions
Key Inquiry Questions: What is a fraction
Suggested Learning Experiences: Learners are guided to discuss fractions in groups".

(** A labelled question, a line of another section, then a question that
    no label introduces *)
Definition labelled_then_free : str :=
  u "Key Inquiry Questions: What is a fraction?
Values: unity
How do we share food equally?".

(** A question typed with two question marks *)
Definition double_mark : str := u "What is this??".

(** [q] ends with a question mark. *)
Definition ends_with_mark (q : str) : Prop :=
  exists p, q = p ++ u "?".

(** [q] ends with exactly one question mark: its last character is one
    and the character before it, if any, is not. *)
Definition ends_with_one_mark (q : str) : Prop :=
  exists p, q = p ++ u "?" /\ endswith p (u "?") = false.

(** A document of one page; the scan of the pages from index 11 on finds
    nothing in it. *)
Definition one_page_doc : list page := [Page (u "Strand: Numbers")].

(** The first tier of [extract_learning_outcomes] gives something. *)
Definition heading_outcomes : str :=
  u "Specific Learning Outcomes:
identify fractions of a whole
Key Inquiry Questions".

(** The first tier gives nothing and the second gives something. *)
Definition by_end_outcomes : str :=
  u "By the end of the sub strand, the learner should be able to:
identify fractions of a whole
explain halves and quarters
Key Inquiry Questions".

End ExtractorTerms.

Section TableTerms.
Import Py CurriculumDb.
Local Open Scope nat_scope.
Local Open Scope list_scope.

Definition key_of (r : row) : str * str := (r_subject r, r_grade r).

(** What the schema and the counter of [AUTOINCREMENT] keep: no two rows
    share (subject, grade), no two rows share an id, and every id is
    below the counter. *)
Definition well_formed (t : db) : Prop :=
  NoDup (map key_of (rows t))
  /\ NoDup (map r_id (rows t))
  /\ Forall (fun r => r_id r < next_id t) (rows t).

(** A field as it is read back: an absent key comes back empty. *)
Definition read_back {A : Type} (e : entry (list A)) : entry (list A) :=
  match e with
  | Missing => Val []
  | IsNone => IsNone
  | Val a => Val a
  end.

Definition stored (d : data) : data :=
  {| strand := read_back (strand d);
     substrand := read_back (substrand d);
     learning_outcomes := read_back (learning_outcomes d);
     key_inquiry_questions := read_back (key_inquiry_questions d);
     suggested_learning_experiences := read_back (suggested_learning_experiences d);
     core_competencies := read_back (core_competencies d);
     values := read_back (values d) |}.

Definition present {A : Type} (e : entry A) : Prop :=
  match e with
  | Val _ => True
  | _ => False
  end.

(** Every field of the record is bound to a value. *)
Definition complete (d : data) : Prop :=
  present (strand d) /\ present (substrand d)
  /\ present (learning_outcomes d) /\ present (key_inquiry_questions d)
  /\ present (suggested_learning_experiences d)
  /\ present (core_competencies d) /\ present (values d).

(** A table of one row, and a record to write *)
Definition maths_record : data :=
  {| strand := Val (u "Numbers");
     substrand := Val (u "Fractions");
     learning_outcomes := Val [u "identify"; u "explain"];
     key_inquiry_questions := Val [u "What is a fraction?"];
     suggested_learning_experiences := Val [];
     core_competencies := Val [];
     values := Val [] |}.

Definition one_row_table : db :=
  insert_curriculum {| rows := []; next_id := 1 |}
    (u "Maths") (u "Grade 7") maths_record (u "auto_extracted").

End TableTerms.

Section TrimTerms.
Import Py.

(** [x] neither starts nor ends with a character that [p] holds of. *)
Definition trimmed (p : char -> bool) (x : str) : Prop :=
  (forall c r, x = c :: r -> p c = false)
  /\ (forall r c, x = r ++ [c] -> p c = false).

End TrimTerms.

Section ClassifierOrigins.
Import Py LessonGenerator.
Local Open Scope string_scope.
Local Open Scope nat_scope.
Local Open Scope list_scope.

(** How a classified string [x] comes from the stripped item [text] in the
    list of category [c]: it is the item, or the item less the prefix of
    its category. *)
Definition origin (text : str) (c : category) (x : str) : Prop :=
  x = text
  \/ (c = Link /\ x = clean_link text)
  \/ (c = Pci /\ x = clean_pci text)
  \/ (c = Value /\ x = clean_values text).

Definition bucket_of (c : category) (b : buckets) : list str :=
  match c with
  | Competency => competencies b
  | Value => values b
  | Link => links b
  | Pci => pcis b
  end.

(** What holds of a string [x] of the list of category [c]: it is not
    empty, it has no white space at either end, and it comes from a string
    of [items] of at least 4 characters once stripped. *)
Definition from_items (items : list value) (c : category) (x : str) : Prop :=
  x <> [] /\ strip x = x
  /\ exists s, In (VStr s) items /\ 4 <= length (strip s) /\ origin (strip s) c x.

(** [k] runs over the indices [i, i + len); how many are [j] modulo [n] *)
Fixpoint hits (n j i len : nat) : nat :=
  match len with
  | O => 0
  | S len' => (if i mod n =? j then 1 else 0) + hits n j (S i) len'
  end.

End ClassifierOrigins.

Section ExtractorInvariantTerms.
Import Py CbcParser.
Local Open Scope string_scope.
Local Open Scope nat_scope.
Local Open Scope list_scope.

(** No two items of [l] have the same key. *)
Definition distinct_by (key : str -> str) (l : list str) : Prop :=
  NoDup (map key l).

(** The key of the experiences: the first 80 characters, lower case *)
Definition experience_key (e : str) : str := firstn 80 (lower e).

(** [x] is a run of consecutive characters of [s]. *)
Definition substring (x s : str) : Prop :=
  exists a b, s = a ++ x ++ b.

Definition substring_of_some (lines : list str) (x : str) : Prop :=
  exists line, In line lines /\ substring x line.

(** A document of twelve pages of which the first is unreadable and the
    last holds text *)
Definition twelve_pages : list page :=
  Unreadable :: repeat (Page []) 10 ++ [Page (u "Strand: Numbers")].

(** A short document with an unreadable page *)
Definition broken_doc : list page := [Page (u "Strand: Numbers"); Unreadable].

End ExtractorInvariantTerms.

Section RunTerms.
Import Py Re.
Local Open Scope nat_scope.
Local Open Scope list_scope.

(** The loop of [run] on a repetition, the matcher of the repeated
    expression being [body] *)
Definition rep_loop (body : K -> K) (greedy : bool) (lo : nat)
  (hi : option nat) (k : K) : nat -> nat -> cursor -> caps -> option (cursor * caps) :=
  fix loop (fuel n : nat) (cu : cursor) (cp : caps) {struct fuel}
    : option (cursor * caps) :=
    match fuel with
    | O => None
    | S fuel' =>
        if greedy then
          match
            (if under hi n
             then body (fun cu' cp' =>
                          if idx cu' =? idx cu then None
                          else loop fuel' (S n) cu' cp') cu cp
             else None)
          with
          | Some x => Some x
          | None => if lo <=? n then k cu cp else None
          end
        else
          match (if lo <=? n then k cu cp else None) with
          | Some x => Some x
          | None =>
              if under hi n
              then body (fun cu' cp' =>
                           if idx cu' =? idx cu then None
                           else loop fuel' (S n) cu' cp') cu cp
              else None
          end
    end.

(** The number of leading characters of [s] that [p] holds of *)
Fixpoint run_len (p : char -> bool) (s : str) : nat :=
  match s with
  | c :: r => if p c then S (run_len p r) else 0
  | [] => 0
  end.

(** The cursor [m] characters on *)
Fixpoint forward (m : nat) (cu : cursor) : cursor :=
  match m with
  | O => cu
  | S m' =>
      match advance cu with
      | Some (_, cu') => forward m' cu'
      | None => cu
      end
  end.

(** The first position, from the cursor on, where at least [lo]
    characters that [p] holds of stand in a row *)
Fixpoint seek (p : char -> bool) (lo : nat) (pv : option char) (s : str)
  (i : nat) : option cursor :=
  if lo <=? run_len p s then Some {| prev := pv; rest := s; idx := i |}
  else
    match s with
    | [] => None
    | c :: s' => seek p lo (Some c) s' (S i)
    end.

(** A run of characters that [p] holds of, read so far in reverse, is
    replaced by [repl] when it has [lo] characters at least, and kept
    otherwise. *)
Definition flush (lo : nat) (repl acc : str) : str :=
  if lo <=? length acc then repl else rev acc.

(** Every maximal run of at least [lo] characters that [p] holds of is
    replaced by [repl]. *)
Fixpoint squeeze_go (p : char -> bool) (lo : nat) (repl acc s : str) : str :=
  match s with
  | [] => flush lo repl acc
  | c :: r =>
      if p c then squeeze_go p lo repl (c :: acc) r
      else flush lo repl acc ++ c :: squeeze_go p lo repl [] r
  end.

(** Every run of white space becomes one space; [in_run] tells that the
    character before was white space. *)
Fixpoint collapse (in_run : bool) (s : str) : str :=
  match s with
  | [] => []
  | c :: r =>
      if isspace c then (if in_run then collapse true r else 32%N :: collapse true r)
      else c :: collapse false r
  end.

(** At most two line feeds are kept of a run of them; [k] counts the line
    feeds kept of the run that is being read. *)
Fixpoint cap_newlines (k : nat) (s : str) : str :=
  match s with
  | [] => []
  | c :: r =>
      if eqc nl c then (if k <? 2 then nl :: cap_newlines (S k) r
                        else cap_newlines k r)
      else c :: cap_newlines 0 r
  end.

(** The white space of [s] is made of single spaces. *)
Definition single_spaced (s : str) : Prop :=
  (forall c, In c s -> isspace c = true -> c = 32%N)
  /\ ~ substring [32%N; 32%N] s.

(** [s] is one line of text in normal form: no white space at either end
    and single spaces inside. *)
Definition tidy (s : str) : Prop :=
  trimmed isspace s /\ single_spaced s.

End RunTerms.

(** [out] keeps some of the items of [l], in the order of [l]. *)
Inductive kept_in_order {A : Type} : list A -> list A -> Prop :=
| kept_nil : kept_in_order [] []
| kept_skip x out l : kept_in_order out l -> kept_in_order out (x :: l)
| kept_take x out l : kept_in_order out l -> kept_in_order (x :: out) (x :: l).

(** * Properties *)

(** ** The patterns *)

Lemma patterns_parse :
  forallb (fun p => match Re.parse p with Some _ => true | None => false end)
          source_patterns = true.
Proof. vm_compute. reflexivity. Qed.

(** ** Strings and the deduplication loop *)

Section StringFacts.
Import Py.

Lemma eqc_eq (a b : char) : eqc a b = true <-> a = b.
Proof. unfold eqc. apply N.eqb_eq. Qed.

Lemma eqs_eq (a b : str) : eqs a b = true <-> a = b.
Proof.
  revert b. induction a as [|x a IH]; intros [|y b]; simpl; split; intro H;
    try reflexivity; try discriminate.
  - apply andb_true_iff in H as [Hx Hs].
    apply eqc_eq in Hx. apply IH in Hs. now subst.
  - injection H as -> ->. apply andb_true_iff. split.
    + now apply eqc_eq.
    + now apply IH.
Qed.

Lemma seen_In (k : str) (seen : list str) :
  existsb (eqs k) seen = true <-> In k seen.
Proof.
  rewrite existsb_exists. split.
  - intros (y & Hy & E). apply eqs_eq in E. now subst.
  - intro H. exists k. split; [assumption | now apply eqs_eq].
Qed.

Lemma startswith_app (s p : str) :
  startswith s p = true -> exists t, s = p ++ t.
Proof.
  revert s. induction p as [|x p IH]; intros s H.
  - now exists s.
  - destruct s as [|y s]; simpl in H; [discriminate|].
    apply andb_true_iff in H as [Hx Hs]. apply eqc_eq in Hx. subst y.
    destruct (IH _ Hs) as [t ->]. now exists t.
Qed.

Lemma endswith_app (s p : str) :
  endswith s p = true -> exists t, s = t ++ p.
Proof.
  unfold endswith. intro H. apply startswith_app in H as [t E].
  exists (rev t). rewrite <- (rev_involutive s), E, rev_app_distr.
  now rewrite rev_involutive.
Qed.

Variable key : str -> str.

Lemma dedup_by_incl (seen l : list str) :
  forall x, In x (dedup_by key seen l) -> In x l.
Proof.
  revert seen. induction l as [|a l IH]; intros seen x; simpl; [tauto|].
  destruct (existsb (eqs (key a)) seen).
  - intro H. right. eapply IH, H.
  - intros [<- | H]; [now left | right; eapply IH, H].
Qed.

Lemma dedup_by_fresh (seen l : list str) :
  forall x, In x (dedup_by key seen l) -> ~ In (key x) seen.
Proof.
  revert seen. induction l as [|a l IH]; intros seen x; simpl; [tauto|].
  destruct (existsb (eqs (key a)) seen) eqn:E.
  - apply IH.
  - intros [<- | H].
    + intro Hin. apply seen_In in Hin. congruence.
    + intro Hin. apply (IH _ _ H). now right.
Qed.

Lemma dedup_by_NoDup (seen l : list str) :
  NoDup (map key (dedup_by key seen l)).
Proof.
  revert seen. induction l as [|a l IH]; intros seen; simpl; [constructor|].
  destruct (existsb (eqs (key a)) seen); [apply IH|].
  simpl. constructor; [|apply IH].
  intro Hin. apply in_map_iff in Hin as (y & Ey & Hy).
  apply dedup_by_fresh in Hy. apply Hy. rewrite Ey. now left.
Qed.

Lemma dedup_by_complete (seen l : list str) :
  forall x, In x l ->
    In (key x) seen \/ In (key x) (map key (dedup_by key seen l)).
Proof.
  revert seen. induction l as [|a l IH]; intros seen x; simpl; [tauto|].
  intros [<- | H].
  - destruct (existsb (eqs (key a)) seen) eqn:E.
    + left. now apply seen_In.
    + right. now left.
  - destruct (existsb (eqs (key a)) seen) eqn:E.
    + now apply IH.
    + destruct (IH (key a :: seen) x H) as [[<- | Hs] | Hd].
      * right. now left.
      * now left.
      * right. now right.
Qed.

End StringFacts.

Lemma dedup_by_kept key seen l :
  kept_in_order (Py.dedup_by key seen l) l.
Proof.
  revert seen. induction l as [|a l IH]; intros seen; simpl; [constructor|].
  destruct (existsb (Py.eqs (key a)) seen); constructor; apply IH.
Qed.

Lemma fromkeys_NoDup l : NoDup (Py.fromkeys l).
Proof.
  unfold Py.fromkeys.
  rewrite <- (map_id (Py.dedup_by _ _ _)). apply dedup_by_NoDup.
Qed.

Lemma fromkeys_In l x : In x (Py.fromkeys l) <-> In x l.
Proof.
  split; [apply dedup_by_incl|].
  intro H. unfold Py.fromkeys.
  destruct (dedup_by_complete (fun x => x) [] l x H) as [[] | Hin].
  now rewrite map_id in Hin.
Qed.

(** ** The completeness score *)

Section Completeness.
Import Py CurriculumDb.

Lemma text_check (e : entry str) :
  (0 <? length (strip (or_empty (get e)))) = text_set e.
Proof.
  destruct e as [| |s]; simpl; try reflexivity.
  now destruct (length (strip s)).
Qed.

Lemma count_check (n : nat) (e : entry (list str)) :
  (n <=? length (or_empty (get e))) = (n <=? count e).
Proof. now destruct e. Qed.

Lemma completed_passed (d : data) :
  length (filter (fun check => check d) checks) = passed d.
Proof.
  unfold checks, passed. cbn [filter].
  rewrite !text_check, !count_check.
  destruct (text_set (strand d)), (text_set (substrand d)),
    (2 <=? count (learning_outcomes d)), (3 <=? count (key_inquiry_questions d)),
    (5 <=? count (suggested_learning_experiences d)),
    (2 <=? count (core_competencies d)), (2 <=? count (values d));
    reflexivity.
Qed.

Lemma passed_le_7 (d : data) : passed d <= 7.
Proof.
  unfold passed.
  destruct (text_set (strand d)), (text_set (substrand d)),
    (2 <=? count (learning_outcomes d)), (3 <=? count (key_inquiry_questions d)),
    (5 <=? count (suggested_learning_experiences d)),
    (2 <=? count (core_competencies d)), (2 <=? count (values d));
    simpl; lia.
Qed.

(** C3, as amended: for every record the score is (passed / 7) x 100 in
    binary64, where the seven checks are: strand not empty once white
    space is stripped, sub-strand likewise, at least 2 learning outcomes,
    at least 3 inquiry questions, at least 5 experiences, at least 2
    competencies, at least 2 values; a record with the strand set, the
    sub-strand empty, 2 outcomes, 0 questions, 6 experiences, 3
    competencies and 0 values passes 4 checks and scores (4/7) x 100,
    the double 57.14285714285714, which lies between 57.125 and
    57.15625. *)
Theorem completeness_is_passed_over_seven (d : data) :
  calculate_completeness d = score_of (passed d)
  /\ passed d <= 7
  /\ (text_set (strand d) = true ->
      text_set (substrand d) = false ->
      count (learning_outcomes d) = 2 ->
      count (key_inquiry_questions d) = 0 ->
      count (suggested_learning_experiences d) = 6 ->
      count (core_competencies d) = 3 ->
      count (values d) = 0 ->
      passed d = 4
      /\ calculate_completeness d = 0x1.c924924924924p+5%float
      /\ PrimFloat.ltb 57.125 (calculate_completeness d) = true
      /\ PrimFloat.ltb (calculate_completeness d) 57.15625 = true).
Proof.
  assert (E : calculate_completeness d = score_of (passed d)).
  { unfold calculate_completeness, score_of. now rewrite completed_passed. }
  split; [exact E|]. split; [apply passed_le_7|].
  intros H1 H2 H3 H4 H5 H6 H7.
  assert (P : passed d = 4).
  { unfold passed. now rewrite H1, H2, H3, H4, H5, H6, H7. }
  rewrite E, P. repeat split; vm_compute; reflexivity.
Qed.

Lemma completeness_scenario_witness :
  passed scenario_record = 4
  /\ calculate_completeness scenario_record = 0x1.c924924924924p+5%float
  /\ PrimFloat.ltb 57.125 (calculate_completeness scenario_record) = true
  /\ PrimFloat.ltb (calculate_completeness scenario_record) 57.15625 = true.
Proof.
  apply (completeness_is_passed_over_seven scenario_record); reflexivity.
Defined.

(** C3 as stated fails on a record whose strand and sub-strand are
    blanks: read to the letter both are non-empty and all seven checks
    pass, yet the code counts five. *)
Lemma completeness_blank_strand_counterexample :
  passed_literal blank_record = 7
  /\ calculate_completeness blank_record = score_of 5
  /\ calculate_completeness blank_record <> score_of (passed_literal blank_record).
Proof.
  repeat split; try (vm_compute; reflexivity).
  vm_compute. intro H.
  assert (F : PrimFloat.ltb 0x1.1db6db6db6db7p+6 100 = false) by now rewrite H.
  vm_compute in F. discriminate.
Qed.

(** *** The upsert keeps the score fresh *)

Lemma stored_fields (id : nat) (subject grade : str) (d : data) (status : str) :
  calculate_completeness
    (pr_fields (parse_curriculum_row (data_to_store id subject grade d status)))
  = calculate_completeness d.
Proof.
  unfold calculate_completeness. f_equal. f_equal. f_equal.
  rewrite !completed_passed. unfold passed. cbn.
  destruct d as [s ss lo kiq sle cc v]. cbn.
  destruct s, ss, lo, kiq, sle, cc, v; reflexivity.
Qed.

Lemma data_to_store_fresh id subject grade d status :
  score_fresh (data_to_store id subject grade d status).
Proof. unfold score_fresh. now rewrite stored_fields. Qed.

Lemma upsert_found rs subject grade d status rs' :
  upsert rs subject grade d status = Some rs' ->
  exists id s g,
    find (same_key subject grade) rs'
    = Some (data_to_store id s g d status).
Proof.
  revert rs'. induction rs as [|r rs IH]; intros rs'; simpl; [discriminate|].
  destruct (same_key subject grade r) eqn:K.
  - intros [= <-]. exists (r_id r), (r_subject r), (r_grade r).
    simpl. unfold same_key in *. simpl. now rewrite K.
  - destruct (upsert rs subject grade d status) as [rs0|]; [|discriminate].
    intros [= <-]. destruct (IH _ eq_refl) as (id & s & g & F).
    exists id, s, g. simpl. now rewrite K.
Qed.

Lemma upsert_none rs subject grade d status :
  upsert rs subject grade d status = None ->
  find (same_key subject grade) rs = None.
Proof.
  induction rs as [|r rs IH]; simpl; [reflexivity|].
  destruct (same_key subject grade r); [discriminate|].
  destruct (upsert rs subject grade d status); [discriminate|].
  intros _. now apply IH.
Qed.

Lemma same_key_refl subject grade id d status :
  same_key subject grade (data_to_store id subject grade d status) = true.
Proof.
  unfold same_key. simpl. apply andb_true_iff. split; now apply eqs_eq.
Qed.

Lemma find_app_none {A} (p : A -> bool) l x :
  find p l = None -> find p (l ++ [x]) = find p [x].
Proof.
  induction l as [|a l IH]; simpl; [reflexivity|].
  destruct (p a); [discriminate | exact IH].
Qed.

(** C9: after [insert_curriculum], on a fresh key or on an existing one,
    the row of (subject, grade) exists, its stored score is the score of
    the data just written, and it equals [calculate_completeness]
    recomputed from the fields read back from the row. *)
Theorem insert_curriculum_score_fresh
  (t : db) (subject grade : str) (d : data) (status : str) :
  exists r,
    select (insert_curriculum t subject grade d status) subject grade = Some r
    /\ r_completeness_score r = calculate_completeness d
    /\ pr_completeness_score (parse_curriculum_row r)
       = calculate_completeness (pr_fields (parse_curriculum_row r)).
Proof.
  unfold insert_curriculum, select.
  destruct (upsert (rows t) subject grade d status) as [rs|] eqn:U.
  - destruct (upsert_found _ _ _ _ _ _ U) as (id & s & g & F).
    exists (data_to_store id s g d status). simpl. split; [exact F|].
    split; [reflexivity | exact (data_to_store_fresh id s g d status)].
  - exists (data_to_store (next_id t) subject grade d status). simpl.
    rewrite (find_app_none _ _ _ (upsert_none _ _ _ _ _ U)). simpl.
    rewrite same_key_refl. split; [reflexivity|].
    split; [reflexivity | exact (data_to_store_fresh (next_id t) subject grade d status)].
Qed.

End Completeness.

(** ** The classifier *)

Section Classifier.
Import Py LessonGenerator.

Lemma filter_filter_weaker {A} (p q : A -> bool) (l : list A) :
  (forall x, p x = true -> q x = true) ->
  filter p (filter q l) = filter p l.
Proof.
  intro H. induction l as [|a l IH]; simpl; [reflexivity|].
  destruct (q a) eqn:Q; simpl.
  - now rewrite IH.
  - destruct (p a) eqn:P; [|exact IH].
    apply H in P. congruence.
Qed.

Lemma filter_filter_and {A} (p q : A -> bool) (l : list A) :
  filter p (filter q l) = filter (fun x => q x && p x) l.
Proof.
  induction l as [|a l IH]; simpl; [reflexivity|].
  destruct (q a); simpl; [|exact IH].
  destruct (p a); now rewrite IH.
Qed.

Lemma dedup_seen_filter (seen l : list str) :
  dedup_by (fun x => x) seen l
  = filter (fun y => negb (existsb (eqs y) seen)) (dedup_by (fun x => x) [] l).
Proof.
  revert seen. induction l as [|a l IH]; intro seen; simpl; [reflexivity|].
  rewrite (IH [a]).
  destruct (existsb (eqs a) seen) eqn:E; simpl.
  - rewrite (IH seen). symmetry. apply filter_filter_weaker.
    intros x Hx. simpl.
    destruct (eqs x a) eqn:Exa; [|reflexivity].
    apply eqs_eq in Exa. subst x. rewrite E in Hx. discriminate.
  - f_equal. rewrite (IH (a :: seen)), filter_filter_and.
    apply filter_ext. intro x. simpl.
    now destruct (eqs x a), (existsb (eqs x) seen).
Qed.

Lemma fromkeys_firsts (l : list str) : fromkeys l = firsts l.
Proof.
  unfold fromkeys. induction l as [|a l IH]; simpl; [reflexivity|].
  f_equal. rewrite dedup_seen_filter, IH.
  apply filter_ext. intro x. simpl. now rewrite orb_false_r.
Qed.

(** C1, as amended: each of the four lists is the list of first
    occurrences of what the loop put in its bucket, so it holds no string
    twice, holds the strings of the bucket and no other, and keeps their
    order.  The comparison is exact; nothing relates one list to
    another. *)
Theorem classify_outputs_first_seen (items : list value) :
  let b := fold_left classify_item items no_buckets in
  let '(c, v, l, p) := _classify_competency_items items in
  (c = firsts (competencies b) /\ v = firsts (values b)
   /\ l = firsts (links b) /\ p = firsts (pcis b))
  /\ (NoDup c /\ NoDup v /\ NoDup l /\ NoDup p)
  /\ (kept_in_order c (competencies b) /\ kept_in_order v (values b)
      /\ kept_in_order l (links b) /\ kept_in_order p (pcis b))
  /\ (forall x, (In x c <-> In x (competencies b))
                /\ (In x v <-> In x (values b))
                /\ (In x l <-> In x (links b))
                /\ (In x p <-> In x (pcis b))).
Proof.
  unfold _classify_competency_items. cbv zeta.
  set (b := fold_left classify_item items no_buckets).
  repeat split; try apply fromkeys_firsts; try apply fromkeys_NoDup;
    try apply dedup_by_kept; try (now apply fromkeys_In).
Qed.

(** C1 as stated fails on [Teamwork, teamwork, Respect for all, Link to
    other subjects: Respect for all]: the competencies hold Teamwork and
    teamwork, and Respect for all is both a value and a link. *)
Lemma classify_not_disjoint_counterexample :
  _classify_competency_items mixed_items
  = ([u "Teamwork"; u "teamwork"], [u "Respect for all"],
     [u "Respect for all"], [])
  /\ ~ nodup_ci [u "Teamwork"; u "teamwork"]
  /\ ~ disjoint_and_deduplicated_ci mixed_items.
Proof.
  assert (E : _classify_competency_items mixed_items
              = ([u "Teamwork"; u "teamwork"], [u "Respect for all"],
                 [u "Respect for all"], [])) by (vm_compute; reflexivity).
  split; [exact E|]. split.
  - unfold nodup_ci. intro H. inversion H as [|x l Hin _]; subst.
    apply Hin. vm_compute. now left.
  - unfold disjoint_and_deduplicated_ci. rewrite E.
    intros (_ & _ & _ & D & _).
    apply (D (u "Respect for all") (u "Respect for all")); simpl; auto.
Qed.




Lemma nonempty_neq {A} (l : list A) : nonempty l = true -> l <> [].
Proof. destruct l; [discriminate | discriminate]. Qed.

Lemma long_neq (s : str) : 4 <= length s -> s <> [].
Proof. destruct s; simpl; [lia | discriminate]. Qed.



End Classifier.

(** ** The extractors *)

Section Extractors.
Import Py Re CbcParser.

Lemma firstn_incl {A} (n : nat) (l : list A) x : In x (firstn n l) -> In x l.
Proof.
  revert l. induction n as [|n IH]; intros [|a l]; simpl; try tauto.
  intros [<- | H]; [now left | right; now apply IH].
Qed.

Lemma extract_block_items_cap text h s :
  length (extract_block_items text h s) <= 40.
Proof.
  unfold extract_block_items.
  destruct (search IGNORECASE h text); [apply firstn_le_length | simpl; lia].
Qed.

Lemma extract_learning_outcomes_cap text lines :
  length (extract_learning_outcomes text lines)
  <= if nonempty (outcomes_from_heading text) then 40 else 30.
Proof.
  unfold extract_learning_outcomes. cbv zeta.
  destruct (nonempty (outcomes_from_heading text)).
  - apply extract_block_items_cap.
  - destruct (nonempty _ && nonempty _); apply firstn_le_length.
Qed.

(** C2: with a heading and 31 distinct lines under it the learning
    outcomes extractor returns 31 items, above its cap of 30; its first
    tier passes on what [extract_block_items] caps at 40, the other two
    tiers cap at 30.  The other caps hold: at most 15 questions, 15
    experiences, 20 competencies and 20 values. *)
Theorem learning_outcomes_exceed_cap :
  length (extract_learning_outcomes thirty_one_outcomes
            (clean_lines thirty_one_outcomes)) = 31
  /\ (forall text lines,
        length (extract_learning_outcomes text lines)
        <= if nonempty (outcomes_from_heading text) then 40 else 30)
  /\ (forall lines text, length (extract_question_lines lines text) <= 15)
  /\ (forall text, length (extract_suggested_learning_experiences text) <= 15)
  /\ (forall lines, length (extract_competencies lines) <= 20)
  /\ (forall lines, length (extract_values lines) <= 20).
Proof.
  split; [vm_compute; reflexivity|].
  split; [apply extract_learning_outcomes_cap|].
  repeat split; intros; apply firstn_le_length.
Qed.

Lemma unique_questions_step seen q rest :
  unique_questions seen (q :: rest)
  = let q_clean := strip (sub NOFLAG (u "\s+") (u " ") q) in
    let q_clean := if negb (endswith q_clean (u "?"))
                   then q_clean ++ u "?" else q_clean in
    let key := lower q_clean in
    if negb (existsb (eqs key) seen) && (8 <=? length q_clean)
    then q_clean :: unique_questions (key :: seen) rest
    else unique_questions seen rest.
Proof. reflexivity. Qed.

Lemma unique_questions_marks seen questions q :
  In q (unique_questions seen questions) -> ends_with_mark q.
Proof.
  revert seen. induction questions as [|a rest IH]; intro seen.
  - intros [].
  - rewrite unique_questions_step. cbv zeta.
    set (c := strip (sub NOFLAG (u "\s+") (u " ") a)).
    destruct (negb (existsb _ seen) && _); [|apply IH].
    intros [<- | H]; [|eapply IH, H].
    destruct (endswith c (u "?")) eqn:E; cbn [negb].
    + apply endswith_app in E as [t ->]. now exists t.
    + now exists c.
Qed.

(** C4, as amended: every string returned by the key-inquiry-questions
    extractor ends with a question mark. *)
Theorem questions_end_with_mark (lines : list str) (full_text q : str) :
  In q (extract_question_lines lines full_text) -> ends_with_mark q.
Proof.
  unfold extract_question_lines. cbv zeta. intro H.
  apply firstn_incl in H. eapply unique_questions_marks, H.
Qed.

Lemma questions_end_with_mark_witness :
  In (u "What is a fraction?")
     (extract_question_lines (clean_lines labelled_then_free) labelled_then_free)
  /\ ends_with_mark (u "What is a fraction?").
Proof.
  assert (H : In (u "What is a fraction?")
                 (extract_question_lines (clean_lines labelled_then_free)
                    labelled_then_free)).
  { vm_compute. left. reflexivity. }
  split; [exact H|].
  exact (questions_end_with_mark _ _ _ H).
Defined.

(** C4 as stated fails on a question typed with two question marks: it
    is returned as typed. *)
Lemma question_with_two_marks_counterexample :
  extract_question_lines [double_mark] double_mark
  = [u "What is this??"; u "What is this?"]
  /\ ~ (forall q, In q (extract_question_lines [double_mark] double_mark) ->
                  ends_with_one_mark q).
Proof.
  assert (E : extract_question_lines [double_mark] double_mark
              = [u "What is this??"; u "What is this?"])
    by (vm_compute; reflexivity).
  split; [exact E|].
  intro H. rewrite E in H.
  destruct (H (u "What is this??") (or_introl eq_refl)) as (p & Ep & Fp).
  change (u "What is this??") with (u "What is this?" ++ u "?") in Ep.
  apply app_inj_tail in Ep as [<- _].
  vm_compute in Fp. discriminate.
Qed.

(** C5, as amended: on empty input the normalizer returns the empty
    string and every extractor the empty result, and nothing is raised;
    the suggested-learning-experiences extractor also returns the empty
    list when it is given [None]. *)
Theorem empty_input_empty_result :
  call_normalize_text (Some []) = Ok []
  /\ call_extract_strand_substrand (Some []) = Ok ([], [])
  /\ call_extract_learning_outcomes (Some []) (Some []) = Ok []
  /\ call_extract_question_lines (Some []) (Some []) = Ok []
  /\ call_extract_suggested_learning_experiences (Some []) = Ok []
  /\ call_extract_competencies (Some []) = Ok []
  /\ call_extract_values (Some []) = Ok []
  /\ call_extract_suggested_learning_experiences None = Ok [].
Proof. repeat split; vm_compute; reflexivity. Qed.

(** C5 as stated fails on [None]: the normalizer raises, and so do the
    extractors other than the suggested-learning-experiences one. *)
Lemma none_input_raises_counterexample :
  call_normalize_text None = Raise AttributeError
  /\ call_normalize_text None <> Ok []
  /\ call_extract_strand_substrand None = Raise TypeError
  /\ call_extract_learning_outcomes None None = Raise TypeError
  /\ call_extract_learning_outcomes (Some []) None = Raise TypeError
  /\ call_extract_question_lines None (Some []) = Raise TypeError
  /\ call_extract_question_lines (Some []) None = Raise TypeError
  /\ call_extract_competencies None = Raise TypeError
  /\ call_extract_values None = Raise TypeError.
Proof. repeat split; try (vm_compute; reflexivity). discriminate. Qed.

(** C6, as amended: in the learning-outcomes extractor the first tier
    that gives something is the whole result, whatever the lines hold:
    the block under the heading when it is not empty, else the outcomes
    captured after "By the end" when there are some.  The questions and
    the experiences extractors have no such precedence: each pools the
    candidates of its three patterns, then deduplicates and caps. *)
Theorem learning_outcomes_first_tier_wins (text : str) :
  (outcomes_from_heading text <> [] ->
   forall lines, extract_learning_outcomes text lines = outcomes_from_heading text)
  /\ (outcomes_from_heading text = [] ->
      outcomes_captured (findall IGNORECASE_DOTALL by_end_pattern text) <> [] ->
      forall lines,
        extract_learning_outcomes text lines
        = firstn 30 (unique_lower
                       (outcomes_captured
                          (findall IGNORECASE_DOTALL by_end_pattern text))))
  /\ (forall lines,
        extract_question_lines lines text
        = firstn 15 (unique_questions []
                       (questions_labelled text ++ questions_in_lines lines
                        ++ questions_in_text text)))
  /\ extract_suggested_learning_experiences text
     = firstn 15 (unique_experiences []
                    (experiences_labelled text ++ experiences_in_lines text
                     ++ experiences_bulleted text)).
Proof.
  split; [|split; [|split; reflexivity]].
  - intros H lines. unfold extract_learning_outcomes. cbv zeta.
    destruct (outcomes_from_heading text); [congruence | reflexivity].
  - intros H0 H1 lines. unfold extract_learning_outcomes. cbv zeta.
    rewrite H0. cbn [nonempty].
    destruct (findall IGNORECASE_DOTALL by_end_pattern text) as [|blk blks] eqn:B.
    + exfalso. apply H1. reflexivity.
    + destruct (outcomes_captured (blk :: blks)); [congruence | reflexivity].
Qed.

Lemma learning_outcomes_first_tier_witness :
  (forall lines,
     extract_learning_outcomes heading_outcomes lines
     = outcomes_from_heading heading_outcomes)
  /\ (forall lines,
        extract_learning_outcomes by_end_outcomes lines
        = firstn 30 (unique_lower
                       (outcomes_captured
                          (findall IGNORECASE_DOTALL by_end_pattern
                             by_end_outcomes)))).
Proof.
  split.
  - apply (proj1 (learning_outcomes_first_tier_wins heading_outcomes)).
    vm_compute. discriminate.
  - apply (proj1 (proj2 (learning_outcomes_first_tier_wins by_end_outcomes))).
    + vm_compute. reflexivity.
    + vm_compute. discriminate.
Defined.

(** C6 as stated fails for the questions extractor: the labelled block
    gives one question, and the result also holds what the two later
    patterns find. *)
Lemma later_patterns_add_questions_counterexample :
  questions_labelled labelled_then_free = [u "What is a fraction?"]
  /\ extract_question_lines (clean_lines labelled_then_free) labelled_then_free
     = [u "What is a fraction?";
        u "Key Inquiry Questions: What is a fraction?";
        u "How do we share food equally?";
        u "Values: unity How do we share food equally?"]
  /\ extract_question_lines (clean_lines labelled_then_free) labelled_then_free
     <> firstn 15 (unique_questions [] (questions_labelled labelled_then_free)).
Proof.
  repeat split; try (vm_compute; reflexivity).
  vm_compute. discriminate.
Qed.

(** C7, as amended: on the text of the scenario, which normalization
    leaves as it is, the strand is Numbers, the sub-strand is Fractions,
    and the key-inquiry-questions extractor returns the empty list: the
    text holds no question mark. *)
Theorem scenario_strand_and_questions :
  normalize_text scenario_text = scenario_text
  /\ extract_strand_substrand (clean_lines scenario_text)
     = (u "Numbers", u "Fractions")
  /\ extract_question_lines (clean_lines scenario_text) scenario_text = []
  /\ p_key_inquiry_questions (parse_text [scenario_text]) = [].
Proof. repeat split; vm_compute; reflexivity. Qed.

(** C7 as stated fails in its last part: the extractor does not return
    the one question of the scenario. *)
Lemma scenario_question_counterexample :
  extract_strand_substrand (clean_lines scenario_text)
  = (u "Numbers", u "Fractions")
  /\ extract_question_lines (clean_lines scenario_text) scenario_text
     <> [u "What is a fraction?"].
Proof. split; [vm_compute; reflexivity | vm_compute; discriminate]. Qed.

Lemma all_pages_length doc pages :
  all_pages doc = Some pages -> length pages = length doc.
Proof.
  revert pages. induction doc as [|p doc IH]; intros pages; simpl.
  - now intros [= <-].
  - destruct (get_text p); [|discriminate].
    destruct (all_pages doc) as [rest|]; [|discriminate].
    intros [= <-]. simpl. f_equal. now apply IH.
Qed.

Lemma all_pages_readable doc texts :
  map get_text doc = map Some texts ->
  all_pages doc = Some (map normalize_text texts).
Proof.
  revert texts. induction doc as [|p doc IH]; intros [|t texts]; simpl;
    try discriminate; [reflexivity|].
  intros [= -> H]. now rewrite (IH _ H).
Qed.

(** C8: for a document of at least one page, when the scan of the pages
    selects none, [parse_pdf] takes the normalized text of every page of
    the document; and whenever extraction goes ahead, the pages it runs
    on are not an empty set. *)
Theorem parse_pdf_never_runs_on_no_page (doc : list page) :
  doc <> [] ->
  (extract_relevant_pages doc = [] ->
   relevant_pages doc = all_pages doc
   /\ forall texts,
        map get_text doc = map Some texts ->
        relevant_pages doc = Some (map normalize_text texts)
        /\ parse_pdf doc = Some (parse_text (map normalize_text texts)))
  /\ (forall pages, relevant_pages doc = Some pages ->
        pages <> [] /\ parse_pdf doc = Some (parse_text pages)).
Proof.
  intro Hdoc. split.
  - intro E. unfold parse_pdf, relevant_pages. rewrite E. cbn [nonempty negb].
    split; [reflexivity|]. intros texts Ht.
    now rewrite (all_pages_readable _ _ Ht).
  - intros pages. unfold parse_pdf, relevant_pages.
    destruct (extract_relevant_pages doc) as [|x rp]; cbn [nonempty negb].
    + intro A. rewrite A. split; [|reflexivity].
      apply all_pages_length in A. destruct pages; [|discriminate].
      destruct doc; [congruence | discriminate].
    + intros [= <-]. split; [discriminate | reflexivity].
Qed.

Lemma parse_pdf_one_page_witness :
  relevant_pages one_page_doc = all_pages one_page_doc
  /\ relevant_pages one_page_doc = Some [u "Strand: Numbers"]
  /\ [u "Strand: Numbers"] <> [].
Proof.
  assert (D : one_page_doc <> []) by discriminate.
  assert (E : extract_relevant_pages one_page_doc = []) by reflexivity.
  destruct (parse_pdf_never_runs_on_no_page one_page_doc D) as [F G].
  destruct (F E) as [F1 F2].
  assert (R : relevant_pages one_page_doc = Some [u "Strand: Numbers"])
    by (vm_compute; reflexivity).
  split; [exact F1|]. split; [exact R|].
  exact (proj1 (G _ R)).
Defined.

End Extractors.

Section ClassifierWitness.
Import Py LessonGenerator.


End ClassifierWitness.

(** ** The table under the upsert *)

Section Table.
Import Py CurriculumDb.

Lemma same_key_eq subject grade r :
  same_key subject grade r = true <-> key_of r = (subject, grade).
Proof.
  unfold same_key, key_of. rewrite andb_true_iff, !eqs_eq.
  split; [intros [-> ->]; reflexivity | intros [= -> ->]; auto].
Qed.

Lemma same_key_stored subject grade r d status :
  same_key subject grade
    (data_to_store (r_id r) (r_subject r) (r_grade r) d status)
  = same_key subject grade r.
Proof. reflexivity. Qed.

Lemma upsert_app_none rs l subject grade d status :
  upsert rs subject grade d status = None ->
  upsert (rs ++ l) subject grade d status
  = option_map (app rs) (upsert l subject grade d status).
Proof.
  induction rs as [|r rs IH]; simpl.
  - intros _. now destruct (upsert l subject grade d status).
  - destruct (same_key subject grade r); [discriminate|].
    destruct (upsert rs subject grade d status) eqn:U; [discriminate|].
    intros _. rewrite (IH eq_refl).
    now destruct (upsert l subject grade d status).
Qed.

Lemma upsert_again rs subject grade d1 st1 d2 st2 rs1 :
  upsert rs subject grade d1 st1 = Some rs1 ->
  upsert rs1 subject grade d2 st2 = upsert rs subject grade d2 st2.
Proof.
  revert rs1. induction rs as [|r rs IH]; intros rs1; simpl; [discriminate|].
  destruct (same_key subject grade r) eqn:K.
  - intros [= <-]. simpl. rewrite same_key_stored, K. reflexivity.
  - destruct (upsert rs subject grade d1 st1) as [rs0|]; [|discriminate].
    intros [= <-]. simpl. rewrite K. now rewrite (IH _ eq_refl).
Qed.

Lemma upsert_some_iff rs subject grade d1 st1 d2 st2 :
  upsert rs subject grade d1 st1 = None ->
  upsert rs subject grade d2 st2 = None.
Proof.
  induction rs as [|r rs IH]; simpl; [reflexivity|].
  destruct (same_key subject grade r); [discriminate|].
  destruct (upsert rs subject grade d1 st1); [discriminate|].
  intros _. now rewrite (IH eq_refl).
Qed.

(** The last write wins: a second upsert on the same key leaves the table
    as if only the second had been made; the same upsert twice is the
    upsert once. *)
Theorem insert_curriculum_last_write_wins
  (t : db) (subject grade : str) (d1 d2 : data) (st1 st2 : str) :
  insert_curriculum (insert_curriculum t subject grade d1 st1) subject grade d2 st2
  = insert_curriculum t subject grade d2 st2
  /\ insert_curriculum (insert_curriculum t subject grade d1 st1)
       subject grade d1 st1
     = insert_curriculum t subject grade d1 st1.
Proof.
  assert (G : forall d2 st2,
             insert_curriculum (insert_curriculum t subject grade d1 st1)
               subject grade d2 st2
             = insert_curriculum t subject grade d2 st2).
  { clear d2 st2. intros d2 st2. unfold insert_curriculum.
    destruct (upsert (rows t) subject grade d1 st1) as [rs1|] eqn:U; simpl.
    - rewrite (upsert_again _ _ _ _ _ d2 st2 _ U).
      destruct (upsert (rows t) subject grade d2 st2) eqn:U2; [reflexivity|].
      rewrite (upsert_some_iff _ _ _ _ _ d1 st1 U2) in U. discriminate.
    - pose proof (upsert_some_iff _ _ _ _ _ d2 st2 U) as U2.
      rewrite (upsert_app_none _ _ _ _ _ _ U2), U2. simpl.
      now rewrite same_key_refl. }
  split; apply G.
Qed.

Lemma upsert_keys rs subject grade d status rs' :
  upsert rs subject grade d status = Some rs' ->
  map key_of rs' = map key_of rs /\ map r_id rs' = map r_id rs.
Proof.
  revert rs'. induction rs as [|r rs IH]; intros rs'; simpl; [discriminate|].
  destruct (same_key subject grade r).
  - intros [= <-]. split; reflexivity.
  - destruct (upsert rs subject grade d status) as [rs0|]; [|discriminate].
    intros [= <-]. destruct (IH _ eq_refl) as [E1 E2]. simpl.
    rewrite E1, E2. split; reflexivity.
Qed.

Lemma upsert_none_key rs subject grade d status :
  upsert rs subject grade d status = None ->
  ~ In (subject, grade) (map key_of rs).
Proof.
  induction rs as [|r rs IH]; simpl; [tauto|].
  destruct (same_key subject grade r) eqn:K; [discriminate|].
  destruct (upsert rs subject grade d status); [discriminate|].
  intros _ [E | H]; [|now apply IH].
  apply same_key_eq in E. congruence.
Qed.

Lemma upsert_select rs subject grade d status :
  upsert rs subject grade d status = None
  <-> find (same_key subject grade) rs = None.
Proof.
  induction rs as [|r rs IH]; simpl; [tauto|].
  destruct (same_key subject grade r); [split; discriminate|].
  destruct (upsert rs subject grade d status);
    [split; [discriminate | intro H; apply IH in H; discriminate]|].
  split; intros _; [now apply IH | reflexivity].
Qed.

(** The upsert keeps the table well formed: keys and ids stay unique and
    below the counter; it adds one row when the key is new and none when
    the key exists. *)
Theorem insert_curriculum_keeps_table_well_formed
  (t : db) (subject grade : str) (d : data) (status : str) :
  well_formed t ->
  well_formed (insert_curriculum t subject grade d status)
  /\ length (rows (insert_curriculum t subject grade d status))
     = match select t subject grade with
       | Some _ => length (rows t)
       | None => S (length (rows t))
       end.
Proof.
  intros (Hk & Hi & Hb). unfold insert_curriculum, select, well_formed.
  destruct (upsert (rows t) subject grade d status) as [rs|] eqn:U; simpl.
  - destruct (upsert_keys _ _ _ _ _ _ U) as [Ek Ei].
    rewrite Ek, Ei. repeat split; try assumption.
    + apply Forall_forall. intros r Hr.
      assert (In (r_id r) (map r_id (rows t)))
        by (rewrite <- Ei; now apply in_map).
      apply in_map_iff in H as (r0 & E0 & H0).
      rewrite <- E0. now apply (proj1 (Forall_forall _ _) Hb).
    + destruct (find (same_key subject grade) (rows t)) eqn:F.
      * rewrite <- (length_map key_of rs), Ek. apply length_map.
      * apply (proj2 (upsert_select _ _ _ d status)) in F. congruence.
  - rewrite (proj1 (upsert_select _ _ _ _ _) U).
    rewrite !map_app, length_app. simpl. repeat split.
    + apply Permutation_NoDup
        with (l := (subject, grade) :: map key_of (rows t)).
      * apply Permutation_cons_append.
      * constructor; [now apply (upsert_none_key _ _ _ _ _ U) | assumption].
    + apply Permutation_NoDup
        with (l := next_id t :: map r_id (rows t)).
      * apply Permutation_cons_append.
      * constructor; [|assumption].
        intro H. apply in_map_iff in H as (r0 & E0 & H0).
        apply (proj1 (Forall_forall _ _) Hb) in H0. lia.
    + apply Forall_app. split.
      * eapply Forall_impl; [|exact Hb]. simpl. intros; lia.
      * constructor; [simpl; lia | constructor].
    + lia.
Qed.

Lemma insert_curriculum_well_formed_witness :
  well_formed (insert_curriculum one_row_table (u "Maths") (u "Grade 8")
                 maths_record (u "reviewed"))
  /\ length (rows (insert_curriculum one_row_table (u "Maths") (u "Grade 8")
                     maths_record (u "reviewed"))) = 2.
Proof.
  assert (W : well_formed one_row_table).
  { unfold well_formed. vm_compute.
    repeat split; repeat constructor; simpl; tauto. }
  exact (insert_curriculum_keeps_table_well_formed one_row_table
           (u "Maths") (u "Grade 8") maths_record (u "reviewed") W).
Defined.

Lemma upsert_other rs subject grade d status rs' subject' grade' :
  (subject', grade') <> (subject, grade) ->
  upsert rs subject grade d status = Some rs' ->
  find (same_key subject' grade') rs' = find (same_key subject' grade') rs.
Proof.
  intro N. revert rs'. induction rs as [|r rs IH]; intros rs'; simpl;
    [discriminate|].
  destruct (same_key subject grade r) eqn:K.
  - intros [= <-]. simpl. rewrite same_key_stored.
    destruct (same_key subject' grade' r) eqn:K'; [|reflexivity].
    apply same_key_eq in K, K'. congruence.
  - destruct (upsert rs subject grade d status) as [rs0|]; [|discriminate].
    intros [= <-]. simpl. now rewrite (IH _ eq_refl).
Qed.

Lemma find_app {A} (p : A -> bool) l1 l2 :
  find p (l1 ++ l2) = match find p l1 with Some x => Some x | None => find p l2 end.
Proof.
  induction l1 as [|a l1 IH]; simpl; [reflexivity|].
  now destruct (p a).
Qed.

(** The upsert reaches one key only: what is selected under any other
    (subject, grade) is what was selected before. *)
Theorem insert_curriculum_leaves_other_keys
  (t : db) (subject grade : str) (d : data) (status : str)
  (subject' grade' : str) :
  (subject', grade') <> (subject, grade) ->
  select (insert_curriculum t subject grade d status) subject' grade'
  = select t subject' grade'.
Proof.
  intro N. unfold insert_curriculum, select.
  destruct (upsert (rows t) subject grade d status) as [rs|] eqn:U; simpl.
  - now apply (upsert_other _ _ _ _ _ _ _ _ N U).
  - rewrite find_app. simpl.
    destruct (find (same_key subject' grade') (rows t)); [reflexivity|].
    destruct (same_key subject' grade' _) eqn:K; [|reflexivity].
    apply same_key_eq in K. unfold key_of in K. simpl in K. congruence.
Qed.

Lemma insert_curriculum_other_key_witness :
  select (insert_curriculum one_row_table (u "Maths") (u "Grade 8")
            maths_record (u "reviewed")) (u "Maths") (u "Grade 7")
  = select one_row_table (u "Maths") (u "Grade 7").
Proof.
  apply insert_curriculum_leaves_other_keys.
  vm_compute. discriminate.
Defined.

Lemma read_back_fields id subject grade d status :
  pr_fields (parse_curriculum_row (data_to_store id subject grade d status))
  = stored d.
Proof.
  destruct d as [s ss lo kiq sle cc v]. unfold stored. cbn.
  destruct s, ss, lo, kiq, sle, cc, v; reflexivity.
Qed.

Lemma stored_complete d : complete d -> stored d = d.
Proof.
  destruct d as [s ss lo kiq sle cc v]. unfold complete, stored. cbn.
  intros (H1 & H2 & H3 & H4 & H5 & H6 & H7).
  destruct s, ss, lo, kiq, sle, cc, v; simpl in *; try tauto.
Qed.

Lemma find_same_key subject grade rs r :
  find (same_key subject grade) rs = Some r ->
  r_subject r = subject /\ r_grade r = grade.
Proof.
  intro F. apply find_some in F as [_ K].
  apply same_key_eq in K. unfold key_of in K. now injection K.
Qed.

Lemma upsert_found_row rs subject grade d status rs' :
  upsert rs subject grade d status = Some rs' ->
  exists r,
    find (same_key subject grade) rs = Some r
    /\ find (same_key subject grade) rs'
       = Some (data_to_store (r_id r) (r_subject r) (r_grade r) d status).
Proof.
  revert rs'. induction rs as [|r rs IH]; intros rs'; simpl; [discriminate|].
  destruct (same_key subject grade r) eqn:K.
  - intros [= <-]. exists r. split; [reflexivity|].
    simpl. now rewrite same_key_stored, K.
  - destruct (upsert rs subject grade d status) as [rs0|]; [|discriminate].
    intros [= <-]. destruct (IH _ eq_refl) as (r0 & F0 & F1).
    exists r0. split; [exact F0|]. simpl. now rewrite K.
Qed.

(** Round trip: what [get_curriculum] reads under the key just written,
    subject and grade being non-empty (with an empty one the function
    lists the table instead), is the key, the status and the fields of
    the data, an absent field read as empty; a record with every field
    present is read back as it was written.  The row keeps the id it had,
    or takes the counter when the key is new. *)
Theorem get_curriculum_after_insert
  (t : db) (subject grade : str) (d : data) (status : str) :
  subject <> [] -> grade <> [] ->
  exists pr,
    get_curriculum (insert_curriculum t subject grade d status) subject grade
    = Some pr
    /\ pr_subject pr = subject /\ pr_grade pr = grade
    /\ pr_status pr = status
    /\ pr_fields pr = stored d
    /\ (complete d -> pr_fields pr = d)
    /\ pr_id pr = match select t subject grade with
                  | Some r => r_id r
                  | None => next_id t
                  end.
Proof.
  intros _ _. unfold get_curriculum, insert_curriculum, select.
  destruct (upsert (rows t) subject grade d status) as [rs|] eqn:U; simpl.
  - destruct (upsert_found_row _ _ _ _ _ _ U) as (r & F & F').
    rewrite F', F. simpl.
    destruct (find_same_key _ _ _ _ F) as [Es Eg].
    eexists. split; [reflexivity|]. cbn.
    repeat split; try assumption.
    + apply (read_back_fields 0 subject grade d status).
    + intro C. transitivity (stored d);
        [apply (read_back_fields 0 subject grade d status)
        | now apply stored_complete].
  - pose proof (proj1 (upsert_select _ _ _ _ _) U) as F.
    rewrite find_app, F. simpl. rewrite same_key_refl. simpl.
    eexists. split; [reflexivity|]. cbn.
    repeat split.
    + apply (read_back_fields 0 subject grade d status).
    + intro C. transitivity (stored d);
        [apply (read_back_fields 0 subject grade d status)
        | now apply stored_complete].
Qed.

Lemma get_curriculum_after_insert_witness :
  exists pr,
    get_curriculum one_row_table (u "Maths") (u "Grade 7") = Some pr
    /\ pr_fields pr = maths_record.
Proof.
  destruct (get_curriculum_after_insert {| rows := []; next_id := 1 |}
              (u "Maths") (u "Grade 7") maths_record (u "auto_extracted"))
    as (pr & G & _ & _ & _ & _ & C & _);
    [vm_compute; discriminate | vm_compute; discriminate |].
  exists pr. split; [exact G|].
  apply C. vm_compute. tauto.
Defined.

End Table.

(** ** The range of the score *)

Section ScoreRange.
Import Py CurriculumDb.

Lemma score_passed (d : data) : calculate_completeness d = score_of (passed d).
Proof. unfold calculate_completeness, score_of. now rewrite completed_passed. Qed.

Lemma score_of_bounds n :
  n <= 7 ->
  PrimFloat.leb 0 (score_of n) = true /\ PrimFloat.leb (score_of n) 100 = true.
Proof.
  intro H.
  do 8 (destruct n as [|n]; [split; vm_compute; reflexivity|]).
  exfalso. lia.
Qed.

Lemma score_of_top n : n <= 7 -> (score_of n = 100%float <-> n = 7).
Proof.
  intro H. split.
  - intro E. apply (f_equal (fun x => PrimFloat.eqb x 100)) in E.
    do 7 (destruct n as [|n]; [vm_compute in E; discriminate|]).
    destruct n; [reflexivity | exfalso; lia].
  - intros ->. vm_compute. reflexivity.
Qed.

Lemma score_of_bottom n : n <= 7 -> (score_of n = 0%float <-> n = 0).
Proof.
  intro H. split.
  - intro E. apply (f_equal (fun x => PrimFloat.eqb x 0)) in E.
    destruct n as [|n]; [reflexivity|].
    do 7 (destruct n as [|n]; [vm_compute in E; discriminate|]).
    exfalso. lia.
  - intros ->. vm_compute. reflexivity.
Qed.

Lemma score_of_increasing n m :
  m <= 7 -> n < m -> PrimFloat.ltb (score_of n) (score_of m) = true.
Proof.
  intros Hm Hn.
  do 8 (destruct m as [|m]; [
    do 8 (destruct n as [|n]; [try (exfalso; lia); vm_compute; reflexivity|]);
    exfalso; lia|]).
  exfalso. lia.
Qed.

(** The score lies between 0 and 100; it is 100 exactly when the seven
    checks pass and 0 exactly when none does; a record that passes more
    checks scores strictly higher, so sorting by score sorts by the
    number of checks passed. *)
Theorem completeness_score_range (d d' : data) :
  PrimFloat.leb 0 (calculate_completeness d) = true
  /\ PrimFloat.leb (calculate_completeness d) 100 = true
  /\ (calculate_completeness d = 100%float <-> passed d = 7)
  /\ (calculate_completeness d = 0%float <-> passed d = 0)
  /\ (passed d < passed d' ->
      PrimFloat.ltb (calculate_completeness d) (calculate_completeness d') = true)
  /\ (passed d = passed d' ->
      calculate_completeness d = calculate_completeness d').
Proof.
  rewrite !score_passed.
  pose proof (passed_le_7 d) as H. pose proof (passed_le_7 d') as H'.
  split; [apply score_of_bounds, H|].
  split; [apply score_of_bounds, H|].
  split; [apply score_of_top, H|].
  split; [apply score_of_bottom, H|].
  split; [now apply score_of_increasing | now intros ->].
Qed.

Lemma completeness_score_range_witness :
  PrimFloat.ltb (calculate_completeness scenario_record)
    (calculate_completeness blank_record) = true.
Proof.
  apply (completeness_score_range scenario_record blank_record).
  vm_compute. lia.
Defined.

End ScoreRange.

(** ** Stripping *)

Section StripFacts.
Import Py.
Variable p : char -> bool.

Lemma lstrip_by_split (s : str) :
  exists pre, s = pre ++ lstrip_by p s /\ Forall (fun c => p c = true) pre.
Proof.
  induction s as [|c s IH]; simpl.
  - exists []. split; [reflexivity | constructor].
  - destruct (p c) eqn:E.
    + destruct IH as (pre & E1 & F). exists (c :: pre). split.
      * simpl. now rewrite <- E1.
      * now constructor.
    + exists []. split; [reflexivity | constructor].
Qed.

Lemma lstrip_by_head (s : str) c r : lstrip_by p s = c :: r -> p c = false.
Proof.
  induction s as [|a s IH]; simpl; [discriminate|].
  destruct (p a) eqn:E; [exact IH|].
  intros [= <- _]. exact E.
Qed.

Lemma lstrip_by_fixed (s : str) :
  (forall c r, s = c :: r -> p c = false) -> lstrip_by p s = s.
Proof.
  destruct s as [|c s]; [reflexivity|].
  intro H. simpl. now rewrite (H c s eq_refl).
Qed.

Lemma strip_by_split (s : str) :
  exists pre post,
    s = pre ++ strip_by p s ++ post
    /\ Forall (fun c => p c = true) pre /\ Forall (fun c => p c = true) post.
Proof.
  unfold strip_by, rstrip_by.
  destruct (lstrip_by_split s) as (pre & E1 & F1).
  destruct (lstrip_by_split (rev (lstrip_by p s))) as (post & E2 & F2).
  exists pre, (rev post). split; [|split; [exact F1|]].
  - rewrite E1 at 1. f_equal.
    rewrite <- (rev_involutive (lstrip_by p s)) at 1.
    rewrite E2 at 1. now rewrite rev_app_distr.
  - apply Forall_forall. intros c Hc. apply in_rev in Hc.
    now apply (proj1 (Forall_forall _ _) F2).
Qed.

Lemma strip_by_incl (s : str) c : In c (strip_by p s) -> In c s.
Proof.
  destruct (strip_by_split s) as (pre & post & E & _).
  intro H. rewrite E. apply in_or_app. right. apply in_or_app. now left.
Qed.

Lemma strip_by_keeps (s : str) c : In c s -> p c = false -> In c (strip_by p s).
Proof.
  destruct (strip_by_split s) as (pre & post & E & F1 & F2).
  intros H N. rewrite E in H.
  apply in_app_or in H as [H | H].
  - apply (proj1 (Forall_forall _ _) F1) in H. congruence.
  - apply in_app_or in H as [H | H]; [exact H|].
    apply (proj1 (Forall_forall _ _) F2) in H. congruence.
Qed.

Lemma strip_by_trimmed (s : str) : trimmed p (strip_by p s).
Proof.
  split.
  - intros c r E.
    destruct (strip_by_split s) as (pre & post & Es & _).
    unfold strip_by, rstrip_by in *.
    destruct (lstrip_by_split (rev (lstrip_by p s))) as (q & Eq & _).
    assert (T : lstrip_by p s = (c :: r) ++ rev q).
    { rewrite <- (rev_involutive (lstrip_by p s)), Eq, rev_app_distr.
      now rewrite E. }
    simpl in T. now apply lstrip_by_head in T.
  - intros r c E. unfold strip_by, rstrip_by in E.
    apply (f_equal (@rev char)) in E.
    rewrite rev_involutive, rev_app_distr in E. simpl in E.
    now apply lstrip_by_head in E.
Qed.

Lemma trimmed_fixed (x : str) : trimmed p x -> strip_by p x = x.
Proof.
  intros [H1 H2]. unfold strip_by, rstrip_by.
  rewrite (lstrip_by_fixed x H1).
  rewrite lstrip_by_fixed; [apply rev_involutive|].
  intros c r E. apply (H2 (rev r) c).
  rewrite <- (rev_involutive x), E. reflexivity.
Qed.

Lemma strip_by_idempotent (s : str) : strip_by p (strip_by p s) = strip_by p s.
Proof. apply trimmed_fixed, strip_by_trimmed. Qed.

Lemma strip_by_length (s : str) : length (strip_by p s) <= length s.
Proof.
  destruct (strip_by_split s) as (pre & post & E & _).
  rewrite E at 2. rewrite !length_app. lia.
Qed.

End StripFacts.

(** ** Where the classified strings come from *)

Section ClassifierOrigin.
Import Py LessonGenerator.

Lemma classify_item_adds (b : buckets) (item : value) :
  classify_item b item = b
  \/ exists s c x,
       item = VStr s /\ 4 <= length (strip s) /\ x <> []
       /\ origin (strip s) c x
       /\ classify_item b item = append_to c b x.
Proof.
  destruct item as [|s|t]; try (now left). unfold classify_item.
  destruct (negb (nonempty s) || (length (strip s) <? 4)) eqn:G; [now left|].
  apply orb_false_iff in G as [_ G]. apply Nat.ltb_ge in G.
  pose proof (long_neq _ G) as Htext. cbv zeta.
  set (text := strip s) in *.
  assert (A : forall c x, x <> [] -> origin text c x ->
              forall r, r = append_to c b x ->
              r = b \/ exists s0 c0 x0,
                  VStr s = VStr s0 /\ 4 <= length (strip s0) /\ x0 <> []
                  /\ origin (strip s0) c0 x0 /\ r = append_to c0 b x0).
  { intros c x Hx Ho r ->. right. exists s, c, x. repeat split; assumption. }
  destruct (is_link (lower text)).
  { destruct (nonempty (clean_link text)) eqn:N; [|now left].
    apply (A Link (clean_link text)); [now apply nonempty_neq| |reflexivity].
    right. left. now split. }
  destruct (contains (lower text) (u "link to other")
            || contains (lower text) (u "links to other")).
  { apply (A Link text); [assumption | now left | reflexivity]. }
  destruct (is_pci (lower text)).
  { destruct (nonempty (clean_pci text)) eqn:N; [|now left].
    apply (A Pci (clean_pci text)); [now apply nonempty_neq| |reflexivity].
    right. right. left. now split. }
  destruct (is_values (lower text)).
  { destruct (nonempty (clean_values text)) eqn:N; [|now left].
    apply (A Value (clean_values text)); [now apply nonempty_neq| |reflexivity].
    right. right. right. now split. }
  destruct (any_in value_keywords (lower text) && (length text <? 200)).
  { apply (A Value text); [assumption | now left | reflexivity]. }
  destruct ((length text <? 80) && any_in subject_names (lower text)
            && (any_in teach_words (lower text) || (length text <? 30))).
  { apply (A Link text); [assumption | now left | reflexivity]. }
  apply (A Competency text); [assumption | now left | reflexivity].
Qed.

Lemma bucket_of_append c c' b x y :
  In y (bucket_of c' (append_to c b x)) ->
  In y (bucket_of c' b) \/ (c' = c /\ y = x).
Proof.
  destruct c, c'; simpl; intro H; try (now left);
    apply in_app_or in H as [H | [<- | []]]; auto.
Qed.

Lemma origin_trimmed text c x :
  trimmed isspace text -> origin text c x -> trimmed isspace x.
Proof.
  intros T [-> | [[_ ->] | [[_ ->] | [_ ->]]]]; try exact T;
    apply strip_by_trimmed.
Qed.

Lemma fold_classify_origin (items l : list value) (b : buckets) :
  incl l items ->
  (forall c x, In x (bucket_of c b) -> from_items items c x) ->
  forall c x, In x (bucket_of c (fold_left classify_item l b)) ->
              from_items items c x.
Proof.
  revert b. induction l as [|item l IH]; intros b Hl Hb c x; simpl.
  - apply Hb.
  - apply IH; [intros y Hy; apply Hl; now right|].
    clear c x. intros c x Hx.
    destruct (classify_item_adds b item) as [E | (s & c0 & x0 & -> & L & N & O & E)];
      rewrite E in Hx; [now apply Hb|].
    apply bucket_of_append in Hx as [Hx | [-> ->]]; [now apply Hb|].
    split; [exact N|]. split.
    + apply trimmed_fixed. eapply origin_trimmed; [|exact O].
      apply strip_by_trimmed.
    + exists s. split; [apply Hl; now left | now split].
Qed.

(** Every string the classifier returns is non-empty, has no white space
    at either end, and is an input string stripped, or such a string less
    the prefix of its list (link, PCI or values); a competency is always a
    stripped input string of at least 4 characters. *)
Theorem classified_strings_come_from_items (items : list value) :
  let '(c, v, l, p) := _classify_competency_items items in
  (forall x, In x c ->
     from_items items Competency x
     /\ 4 <= length x /\ exists s, In (VStr s) items /\ x = strip s)
  /\ (forall x, In x v -> from_items items Value x)
  /\ (forall x, In x l -> from_items items Link x)
  /\ (forall x, In x p -> from_items items Pci x).
Proof.
  unfold _classify_competency_items. cbv zeta.
  set (b := fold_left classify_item items no_buckets).
  assert (H : forall c x, In x (bucket_of c b) -> from_items items c x).
  { apply fold_classify_origin; [apply incl_refl|].
    intros c x. destruct c; simpl; tauto. }
  split; [|split; [|split]]; intros x Hx;
    apply (proj1 (fromkeys_In _ _)) in Hx.
  - pose proof (H Competency x Hx) as F. split; [exact F|].
    destruct F as (_ & _ & s & Hs & L & O).
    destruct O as [-> | [[? _] | [[? _] | [? _]]]]; try discriminate.
    split; [exact L | now exists s].
  - exact (H Value x Hx).
  - exact (H Link x Hx).
  - exact (H Pci x Hx).
Qed.

Lemma classified_strings_witness :
  from_items mixed_items Link (u "Respect for all").
Proof.
  pose proof (classified_strings_come_from_items mixed_items) as H.
  assert (E : _classify_competency_items mixed_items
              = ([u "Teamwork"; u "teamwork"], [u "Respect for all"],
                 [u "Respect for all"], [])) by (vm_compute; reflexivity).
  rewrite E in H. destruct H as (_ & _ & L & _).
  apply L. now left.
Defined.

End ClassifierOrigin.

(** ** Dealing items into buckets *)

Section Distribute.
Import LessonGenerator.
Context {A : Type}.

Lemma kept_in_order_nil (l : list A) : kept_in_order [] l.
Proof. induction l; constructor; assumption. Qed.

Lemma kept_in_order_later (a l : list A) (x : A) :
  kept_in_order a l -> kept_in_order a (l ++ [x]).
Proof.
  induction 1; simpl.
  - apply kept_in_order_nil.
  - now apply kept_skip.
  - now apply kept_take.
Qed.

Lemma kept_in_order_snoc (a l : list A) (x : A) :
  kept_in_order a l -> kept_in_order (a ++ [x]) (l ++ [x]).
Proof.
  induction 1; simpl.
  - apply kept_take, kept_nil.
  - now apply kept_skip.
  - now apply kept_take.
Qed.

Lemma append_at_length (j : nat) (x : A) (bs : list (list A)) :
  length (append_at j x bs) = length bs.
Proof.
  revert j. induction bs as [|b bs IH]; intros [|j]; simpl; auto.
Qed.

Lemma append_at_nth (j k : nat) (x : A) (bs : list (list A)) :
  j < length bs ->
  nth k (append_at j x bs) [] = if k =? j then nth j bs [] ++ [x] else nth k bs [].
Proof.
  revert j k. induction bs as [|b bs IH]; intros j k H; simpl in H; [lia|].
  destruct j as [|j], k as [|k]; simpl; try reflexivity.
  apply IH. lia.
Qed.

Lemma append_at_concat (j : nat) (x : A) (bs : list (list A)) :
  j < length bs ->
  Permutation (concat (append_at j x bs)) (concat bs ++ [x]).
Proof.
  revert j. induction bs as [|b bs IH]; intros j H; simpl in H; [lia|].
  destruct j as [|j]; simpl.
  - rewrite <- !app_assoc. apply Permutation_app_head.
    apply Permutation_app_comm.
  - rewrite <- app_assoc. apply Permutation_app_head. apply IH. lia.
Qed.

Lemma distribute_from_spec (n : nat) (items : list A) :
  0 < n ->
  forall i bs pre,
    length bs = n ->
    (forall j, j < n -> kept_in_order (nth j bs []) pre) ->
    length (distribute_from n i items bs) = n
    /\ Permutation (concat (distribute_from n i items bs)) (concat bs ++ items)
    /\ forall j, j < n ->
         length (nth j (distribute_from n i items bs) [])
         = length (nth j bs []) + hits n j i (length items)
         /\ kept_in_order (nth j (distribute_from n i items bs) []) (pre ++ items).
Proof.
  intro Hn. induction items as [|x items IH]; intros i bs pre Hb Hk; simpl.
  - split; [exact Hb|]. split; [now rewrite app_nil_r|].
    intros j Hj. rewrite app_nil_r. split; [lia | now apply Hk].
  - assert (Hi : i mod n < length bs)
      by (rewrite Hb; apply Nat.mod_upper_bound; lia).
    destruct (IH (S i) (append_at (i mod n) x bs) (pre ++ [x])) as (L & P & N).
    + now rewrite append_at_length.
    + intros j Hj. rewrite append_at_nth by exact Hi.
      destruct (j =? i mod n) eqn:E.
      * apply Nat.eqb_eq in E. subst j. apply kept_in_order_snoc. now apply Hk.
      * apply kept_in_order_later. now apply Hk.
    + split; [exact L|]. split.
      * rewrite P. rewrite (append_at_concat _ _ _ Hi).
        rewrite <- app_assoc. reflexivity.
      * intros j Hj. destruct (N j Hj) as [N1 N2]. split.
        -- rewrite N1, append_at_nth by exact Hi.
           rewrite (Nat.eqb_sym (i mod n) j).
           destruct (j =? i mod n) eqn:E.
           ++ apply Nat.eqb_eq in E. subst j. rewrite length_app. simpl. lia.
           ++ lia.
        -- now rewrite <- app_assoc in N2.
Qed.

Lemma hits_last (n j i len : nat) :
  hits n j i (S len)
  = hits n j i len + (if (i + len) mod n =? j then 1 else 0).
Proof.
  revert i. induction len as [|len IH]; intro i.
  - cbn [hits]. replace (i + 0) with i by lia.
    destruct (i mod n =? j); reflexivity.
  - change (hits n j i (S (S len)))
      with ((if i mod n =? j then 1 else 0) + hits n j (S i) (S len)).
    rewrite (IH (S i)). cbn [hits].
    replace (S i + len) with (i + S len) by lia.
    destruct (i mod n =? j), ((i + S len) mod n =? j); lia.
Qed.

Lemma succ_div_mod (n a : nat) :
  0 < n ->
  (S a mod n = 0 /\ S a / n = S (a / n) /\ a mod n = n - 1)
  \/ (S a mod n = S (a mod n) /\ S a / n = a / n /\ S (a mod n) < n).
Proof.
  intro Hn.
  pose proof (Nat.div_mod_eq a n) as E.
  pose proof (Nat.mod_upper_bound a n ltac:(lia)) as B.
  destruct (Nat.eq_dec (a mod n) (n - 1)) as [T | T].
  - left.
    assert (S a = n * S (a / n) + 0) by nia.
    split; [|split; [|exact T]].
    + symmetry. apply (Nat.mod_unique _ _ (S (a / n))); lia.
    + symmetry. apply (Nat.div_unique _ _ _ 0); lia.
  - right.
    assert (S a = n * (a / n) + S (a mod n)) by lia.
    split; [|split; [|lia]].
    + symmetry. apply (Nat.mod_unique _ _ (a / n)); lia.
    + symmetry. apply (Nat.div_unique _ _ _ (S (a mod n))); lia.
Qed.

Lemma hits_total (n j len : nat) :
  0 < n -> j < n ->
  hits n j 0 len = len / n + (if j <? len mod n then 1 else 0).
Proof.
  intros Hn Hj. induction len as [|len IH].
  - simpl. rewrite Nat.Div0.div_0_l, Nat.Div0.mod_0_l. reflexivity.
  - rewrite hits_last, IH. simpl (0 + len).
    destruct (succ_div_mod n len Hn) as [(M & D & T) | (M & D & T)];
      rewrite M, D.
    + rewrite T. destruct (n - 1 =? j) eqn:E1.
      * apply Nat.eqb_eq in E1.
        replace (j <? n - 1) with false by (symmetry; apply Nat.ltb_ge; lia).
        simpl. lia.
      * apply Nat.eqb_neq in E1.
        replace (j <? n - 1) with true by (symmetry; apply Nat.ltb_lt; lia).
        simpl. lia.
    + destruct (len mod n =? j) eqn:E1.
      * apply Nat.eqb_eq in E1.
        replace (j <? len mod n) with false by (symmetry; apply Nat.ltb_ge; lia).
        replace (j <? S (len mod n)) with true by (symmetry; apply Nat.ltb_lt; lia).
        lia.
      * apply Nat.eqb_neq in E1.
        destruct (j <? len mod n) eqn:E2.
        -- apply Nat.ltb_lt in E2.
           replace (j <? S (len mod n)) with true
             by (symmetry; apply Nat.ltb_lt; lia).
           lia.
        -- apply Nat.ltb_ge in E2.
           replace (j <? S (len mod n)) with false
             by (symmetry; apply Nat.ltb_ge; lia).
           lia.
Qed.

Lemma nth_repeat_nil (j n : nat) : nth j (repeat (@nil A) n) [] = [].
Proof.
  revert j. induction n as [|n IH]; intros [|j]; simpl; auto.
Qed.

Lemma concat_repeat_nil (n : nat) : concat (repeat (@nil A) n) = [].
Proof. induction n; simpl; auto. Qed.

(** With a positive number of buckets, [_distribute_items] returns that
    many buckets, which together hold the items, each once; bucket [j]
    keeps the order of the input and holds len/n items, one more when
    [j < len mod n], so two buckets differ by one item at most.  With a
    number of buckets that is zero or negative it returns one empty
    bucket and the items are left out. *)
Theorem distribute_items_round_robin (items : list A) (num_buckets : Z) :
  ((0 < num_buckets)%Z ->
   length (_distribute_items items num_buckets) = Z.to_nat num_buckets
   /\ Permutation (concat (_distribute_items items num_buckets)) items
   /\ forall j, j < Z.to_nat num_buckets ->
        length (nth j (_distribute_items items num_buckets) [])
        = length items / Z.to_nat num_buckets
          + (if j <? length items mod Z.to_nat num_buckets then 1 else 0)
        /\ kept_in_order (nth j (_distribute_items items num_buckets) []) items)
  /\ ((num_buckets <= 0)%Z -> _distribute_items items num_buckets = [[]]).
Proof.
  unfold _distribute_items. split.
  - intro Hz. set (n := Z.to_nat num_buckets).
    assert (Hn : 0 < n) by (unfold n; lia).
    replace (Z.to_nat (Z.max 1 num_buckets)) with n by (unfold n; lia).
    replace (num_buckets <=? 0)%Z with false by (symmetry; apply Z.leb_gt; lia).
    destruct items as [|x items]; cbn [nonempty negb orb].
    + split; [apply repeat_length|]. split; [now rewrite concat_repeat_nil|].
      intros j Hj. rewrite nth_repeat_nil. simpl length.
      rewrite Nat.Div0.div_0_l, Nat.Div0.mod_0_l. split; [reflexivity | constructor].
    + destruct (distribute_from_spec n (x :: items) Hn 0 (repeat [] n) [])
        as (L & P & N).
      * apply repeat_length.
      * intros j _. rewrite nth_repeat_nil. constructor.
      * split; [exact L|]. split.
        -- rewrite P, concat_repeat_nil. reflexivity.
        -- intros j Hj. destruct (N j Hj) as [N1 N2]. split; [|exact N2].
           rewrite N1, nth_repeat_nil, hits_total by assumption. reflexivity.
  - intro Hz.
    replace (num_buckets <=? 0)%Z with true by (symmetry; apply Z.leb_le; lia).
    rewrite orb_true_r.
    replace (Z.to_nat (Z.max 1 num_buckets)) with 1 by lia. reflexivity.
Qed.

End Distribute.

Lemma distribute_items_round_robin_witness :
  Permutation (concat (LessonGenerator._distribute_items [1; 2; 3; 4; 5] 2))
    [1; 2; 3; 4; 5]
  /\ LessonGenerator._distribute_items [1; 2; 3; 4; 5] 0 = [[]].
Proof.
  split.
  - apply (proj1 (distribute_items_round_robin [1; 2; 3; 4; 5] 2%Z)). lia.
  - apply (proj2 (distribute_items_round_robin [1; 2; 3; 4; 5] 0%Z)). lia.
Defined.

(** ** What the extractors keep *)

Section ExtractorInvariants.
Import Py Re CbcParser.

Lemma NoDup_firstn {A} (n : nat) (l : list A) : NoDup l -> NoDup (firstn n l).
Proof.
  revert l. induction n as [|n IH]; intros [|a l] H; simpl; try constructor.
  - inversion H as [|? ? Hin Hl]; subst. intro F. apply Hin.
    eapply firstn_incl, F.
  - inversion H; subst. now apply IH.
Qed.

Lemma distinct_firstn key n l : distinct_by key l -> distinct_by key (firstn n l).
Proof.
  unfold distinct_by. rewrite <- firstn_map. apply NoDup_firstn.
Qed.

Lemma unique_lower_distinct l : distinct_by lower (unique_lower l).
Proof. apply dedup_by_NoDup. Qed.

Lemma unique_questions_fresh seen questions q :
  In q (unique_questions seen questions) -> ~ In (lower q) seen.
Proof.
  revert seen. induction questions as [|a rest IH]; intro seen; [intros []|].
  rewrite unique_questions_step. cbv zeta.
  set (c := if negb (endswith _ _) then _ else _).
  destruct (negb (existsb (eqs (lower c)) seen)) eqn:E; cbn [andb].
  - destruct (8 <=? length c); [|apply IH].
    intros [<- | H].
    + intro Hin. apply seen_In in Hin. rewrite Hin in E. discriminate.
    + intro Hin. apply (IH _ H). now right.
  - apply IH.
Qed.

Lemma unique_questions_distinct seen questions :
  distinct_by lower (unique_questions seen questions).
Proof.
  unfold distinct_by.
  revert seen. induction questions as [|a rest IH]; intro seen; [constructor|].
  rewrite unique_questions_step. cbv zeta.
  set (c := if negb (endswith _ _) then _ else _).
  destruct (negb (existsb (eqs (lower c)) seen) && (8 <=? length c)); [|apply IH].
  simpl. constructor; [|apply IH].
  intro Hin. apply in_map_iff in Hin as (y & Ey & Hy).
  apply unique_questions_fresh in Hy. apply Hy. rewrite Ey. now left.
Qed.

Lemma unique_questions_long seen questions q :
  In q (unique_questions seen questions) -> 8 <= length q.
Proof.
  revert seen. induction questions as [|a rest IH]; intro seen; [intros []|].
  rewrite unique_questions_step. cbv zeta.
  set (c := if negb (endswith _ _) then _ else _).
  destruct (negb (existsb (eqs (lower c)) seen)); cbn [andb]; [|apply IH].
  destruct (8 <=? length c) eqn:L; [|apply IH].
  intros [<- | H]; [now apply Nat.leb_le | eapply IH, H].
Qed.

Lemma unique_experiences_step seen e rest :
  unique_experiences seen (e :: rest)
  = let e := strip (sub NOFLAG (u "\s+") (u " ") e) in
    if 15 <=? length e then
      let key := firstn 80 (lower e) in
      if negb (existsb (eqs key) seen)
      then e :: unique_experiences (key :: seen) rest
      else unique_experiences seen rest
    else unique_experiences seen rest.
Proof. reflexivity. Qed.

Lemma unique_experiences_fresh seen experiences e :
  In e (unique_experiences seen experiences) ->
  ~ In (experience_key e) seen /\ 15 <= length e.
Proof.
  revert seen. induction experiences as [|a rest IH]; intro seen; [intros []|].
  rewrite unique_experiences_step. cbv zeta.
  set (c := strip _).
  destruct (15 <=? length c) eqn:L; [|apply IH].
  destruct (negb (existsb (eqs (firstn 80 (lower c))) seen)) eqn:E; [|apply IH].
  intros [<- | H].
  - split; [|now apply Nat.leb_le].
    intro Hin. apply seen_In in Hin. unfold experience_key in Hin.
    rewrite Hin in E. discriminate.
  - destruct (IH _ H) as [F G]. split; [|exact G].
    intro Hin. apply F. now right.
Qed.

Lemma unique_experiences_distinct seen experiences :
  distinct_by experience_key (unique_experiences seen experiences).
Proof.
  unfold distinct_by.
  revert seen. induction experiences as [|a rest IH]; intro seen; [constructor|].
  rewrite unique_experiences_step. cbv zeta.
  set (c := strip _).
  destruct (15 <=? length c); [|apply IH].
  destruct (negb (existsb (eqs (firstn 80 (lower c))) seen)); [|apply IH].
  simpl. constructor; [|apply IH].
  intro Hin. apply in_map_iff in Hin as (y & Ey & Hy).
  apply unique_experiences_fresh in Hy as [Hy _]. apply Hy.
  rewrite Ey. now left.
Qed.

Lemma extract_block_items_distinct text h s :
  distinct_by lower (extract_block_items text h s).
Proof.
  unfold extract_block_items.
  destruct (search IGNORECASE h text); [|constructor].
  apply distinct_firstn, unique_lower_distinct.
Qed.

(** No extractor returns two items that are equal when case is ignored;
    the experiences extractor returns no two items that agree, case
    ignored, on their first 80 characters. *)
Theorem extractors_return_distinct_items (text : str) (lines : list str) :
  distinct_by lower (extract_learning_outcomes text lines)
  /\ distinct_by lower (extract_question_lines lines text)
  /\ distinct_by lower (extract_competencies lines)
  /\ distinct_by lower (extract_values lines)
  /\ distinct_by experience_key (extract_suggested_learning_experiences text)
  /\ distinct_by lower (extract_suggested_learning_experiences text).
Proof.
  split; [|split; [|split; [|split; [|split]]]].
  - unfold extract_learning_outcomes. cbv zeta.
    destruct (nonempty (outcomes_from_heading text));
      [apply extract_block_items_distinct|].
    destruct (nonempty _ && nonempty _);
      apply distinct_firstn, unique_lower_distinct.
  - apply distinct_firstn, unique_questions_distinct.
  - apply distinct_firstn, unique_lower_distinct.
  - apply distinct_firstn, unique_lower_distinct.
  - apply distinct_firstn, unique_experiences_distinct.
  - pose proof (distinct_firstn experience_key 15 _
                  (unique_experiences_distinct []
                     (experiences_labelled text ++ experiences_in_lines text
                      ++ experiences_bulleted text))) as H.
    unfold distinct_by, experience_key in *.
    change (extract_suggested_learning_experiences text)
      with (firstn 15 (unique_experiences []
              (experiences_labelled text ++ experiences_in_lines text
               ++ experiences_bulleted text))).
    rewrite <- (map_map lower (firstn 80)) in H.
    eapply NoDup_map_inv, H.
Qed.

Lemma extract_block_items_long text h s x :
  In x (extract_block_items text h s) -> 6 <= length x.
Proof.
  unfold extract_block_items.
  destruct (search IGNORECASE h text); [|intros []].
  intro H. apply firstn_incl, dedup_by_incl, filter_In in H as [_ H].
  apply andb_true_iff in H as [H _]. apply andb_true_iff in H as [H _].
  apply negb_true_iff, Nat.ltb_ge in H. exact H.
Qed.

(** Every question returned has at least 8 characters, every experience
    at least 15, every learning outcome at least 6; when nothing stands
    under a learning-outcomes heading, a learning outcome has between 10
    and 220 characters. *)
Theorem extracted_items_are_long_enough (text : str) (lines : list str) :
  (forall q, In q (extract_question_lines lines text) -> 8 <= length q)
  /\ (forall e, In e (extract_suggested_learning_experiences text) ->
        15 <= length e)
  /\ (forall o, In o (extract_learning_outcomes text lines) ->
        6 <= length o
        /\ (outcomes_from_heading text = [] -> 10 <= length o <= 220)).
Proof.
  split; [|split].
  - intros q H. apply firstn_incl in H. eapply unique_questions_long, H.
  - intros e H. apply firstn_incl in H.
    now apply unique_experiences_fresh in H.
  - intros o. unfold extract_learning_outcomes. cbv zeta.
    destruct (outcomes_from_heading text) as [|h t] eqn:T; cbn [nonempty].
    + assert (G : In o (firstn 30 (unique_lower
                         (outcomes_captured
                            (findall IGNORECASE_DOTALL by_end_pattern text))))
                  \/ In o (outcomes_fallback lines) -> 10 <= length o <= 220).
      { intros [H | H].
        - apply firstn_incl, dedup_by_incl in H.
          unfold outcomes_captured in H. apply in_flat_map in H as (blk & _ & H).
          apply filter_In in H as [_ H].
          apply andb_true_iff in H as [H _]. apply andb_true_iff in H as [H _].
          apply negb_true_iff, orb_false_iff in H as [H1 H2].
          apply Nat.ltb_ge in H1, H2. lia.
        - unfold outcomes_fallback in H.
          apply firstn_incl, dedup_by_incl, filter_In in H as [_ H].
          apply andb_true_iff in H as [H _]. apply andb_true_iff in H as [H _].
          apply negb_true_iff, orb_false_iff in H as [H1 H2].
          apply Nat.ltb_ge in H1, H2. lia. }
      intro H.
      assert (10 <= length o <= 220).
      { apply G. destruct (nonempty _ && nonempty _); [now left | now right]. }
      split; [lia | intros _; assumption].
    + intro H. split; [|discriminate].
      rewrite <- T in H. now apply extract_block_items_long in H.
Qed.

Lemma extracted_items_long_witness :
  8 <= length (u "What is a fraction?")
  /\ 6 <= length (u "identify fractions of a whole").
Proof.
  destruct (extracted_items_are_long_enough labelled_then_free
              (clean_lines labelled_then_free)) as (Q & _ & _).
  destruct (extracted_items_are_long_enough heading_outcomes []) as (_ & _ & O).
  split.
  - apply Q. vm_compute. left. reflexivity.
  - apply O. vm_compute. left. reflexivity.
Defined.

End ExtractorInvariants.

(** ** The pages that are parsed *)

Section Pages.
Import Py Re CbcParser.

Lemma has_items {A} (l : list A) : CbcParser.nonempty l = true -> l <> [].
Proof. destruct l; [discriminate | discriminate]. Qed.

Lemma skipn_short {A} (n : nat) (l : list A) : length l <= n -> skipn n l = [].
Proof. intro H. now apply skipn_all2. Qed.

Lemma flat_map_at_most_one {A B} (f : A -> list B) (l : list A) :
  (forall a, length (f a) <= 1) -> length (flat_map f l) <= length l.
Proof.
  intro H. induction l as [|a l IH]; simpl; [lia|].
  rewrite length_app. specialize (H a). lia.
Qed.

Section AnyNormalizer.
Variable f : str -> str.

Lemma page_texts_short (p : page) :
  length (match get_text p with
          | Some text =>
              let normalized := f text in
              if nonempty (strip normalized) then [normalized] else []
          | None => []
          end) <= 1.
Proof.
  destruct p as [t|]; cbn [get_text]; [|simpl; lia].
  cbv zeta. destruct (nonempty (strip (f t))); simpl; lia.
Qed.

Lemma page_texts_origin (p : page) (x : str) :
  In x (match get_text p with
        | Some text =>
            let normalized := f text in
            if nonempty (strip normalized) then [normalized] else []
        | None => []
        end) ->
  strip x <> [] /\ exists text, p = Page text /\ x = f text.
Proof.
  destruct p as [t|]; cbn [get_text]; [|intros []].
  cbv zeta. destruct (nonempty (strip (f t))) eqn:N; [|intros []].
  intros [<- | []]. split; [exact (has_items _ N)|].
  exists t. split; reflexivity.
Qed.

End AnyNormalizer.

(** The scan never selects one of the first eleven pages, so a document
    of at most eleven pages selects nothing; it selects at most one text
    per later page, and every text it selects is the normalized text of
    such a page and is not blank. *)
Theorem extract_relevant_pages_skips_front_matter (doc : list page) :
  (length doc <= 11 -> extract_relevant_pages doc = [])
  /\ length (extract_relevant_pages doc) <= length doc - 11
  /\ forall p, In p (extract_relevant_pages doc) ->
       strip p <> []
       /\ exists text, In (Page text) (skipn 11 doc) /\ p = normalize_text text.
Proof.
  unfold extract_relevant_pages. split; [|split].
  - intro H. rewrite skipn_short by exact H. reflexivity.
  - rewrite <- length_skipn. apply flat_map_at_most_one.
    exact (page_texts_short normalize_text).
  - intros p H. apply in_flat_map in H as (pg & Hpg & H).
    destruct (page_texts_origin normalize_text pg p H) as (S1 & t & -> & E).
    split; [exact S1|]. exists t. split; [exact Hpg | exact E].
Qed.

Lemma extract_relevant_pages_witness :
  extract_relevant_pages one_page_doc = [].
Proof.
  apply (proj1 (extract_relevant_pages_skips_front_matter one_page_doc)).
  vm_compute. repeat constructor.
Defined.

Lemma all_pages_none doc : all_pages doc = None <-> In Unreadable doc.
Proof.
  induction doc as [|p doc IH]; cbn [all_pages In].
  - split; [discriminate | tauto].
  - destruct p as [t|]; cbn [get_text].
    + destruct (all_pages doc) as [rest|].
      * split; [discriminate|]. intros [H | H]; [discriminate|].
        apply IH in H. discriminate.
      * split; [intros _; right; now apply IH | reflexivity].
    + split; [now left | reflexivity].
Qed.

(** [parse_pdf] fails exactly when the scan selects nothing and some page
    of the document cannot be read: a page that cannot be read is
    harmless as long as a later page (index 11 on) holds text, and fatal
    in a document of at most eleven pages. *)
Theorem parse_pdf_fails_only_in_fallback (doc : list page) :
  (parse_pdf doc = None
   <-> extract_relevant_pages doc = [] /\ In Unreadable doc)
  /\ (length doc <= 11 -> In Unreadable doc -> parse_pdf doc = None)
  /\ (extract_relevant_pages doc <> [] ->
      parse_pdf doc = Some (parse_text (extract_relevant_pages doc))).
Proof.
  assert (G : parse_pdf doc = None
              <-> extract_relevant_pages doc = [] /\ In Unreadable doc).
  { unfold parse_pdf, relevant_pages.
    destruct (extract_relevant_pages doc) as [|x rp]; cbn [nonempty negb].
    - destruct (all_pages doc) eqn:E; cbn [option_map].
      + split; [discriminate|]. intros [_ H].
        apply all_pages_none in H. congruence.
      + split; [|reflexivity]. intros _. split; [reflexivity|].
        now apply all_pages_none.
    - cbn [option_map]. split; [discriminate | intros [H _]; discriminate]. }
  split; [exact G|]. split.
  - intros L U. apply G. split; [|exact U].
    now apply (proj1 (extract_relevant_pages_skips_front_matter doc)).
  - unfold parse_pdf, relevant_pages.
    destruct (extract_relevant_pages doc); [congruence | reflexivity].
Qed.

Lemma parse_pdf_fails_witness :
  parse_pdf broken_doc = None
  /\ parse_pdf twelve_pages
     = Some (parse_text (extract_relevant_pages twelve_pages)).
Proof.
  split.
  - apply (proj1 (proj2 (parse_pdf_fails_only_in_fallback broken_doc))).
    + vm_compute. repeat constructor.
    + right. now left.
  - apply (proj2 (proj2 (parse_pdf_fails_only_in_fallback twelve_pages))).
    vm_compute. discriminate.
Defined.

End Pages.

(** ** Fields taken from the lines *)

Section Verbatim.
Import Py Re CbcParser.

Lemma substring_refl (s : str) : substring s s.
Proof. exists [], []. now rewrite app_nil_r. Qed.

Lemma substring_nil (s : str) : substring [] s.
Proof. exists [], s. reflexivity. Qed.

Lemma substring_trans (x y z : str) :
  substring x y -> substring y z -> substring x z.
Proof.
  intros (a & b & ->) (c & d & ->). exists (c ++ a), (b ++ d).
  now rewrite <- !app_assoc.
Qed.

Lemma slice_substring (s : str) (a b : nat) : substring (slice s a b) s.
Proof.
  unfold slice. exists (firstn a s), (skipn (b - a) (skipn a s)).
  now rewrite firstn_skipn, firstn_skipn.
Qed.

Lemma strip_by_substring p (s : str) : substring (strip_by p s) s.
Proof.
  destruct (strip_by_split p s) as (pre & post & E & _). now exists pre, post.
Qed.

Lemma group_substring (s : str) (m : mres) (n : nat) : substring (group s m n) s.
Proof.
  unfold group. destruct (assoc n (m_caps m)) as [[a b]|];
    [apply slice_substring | apply substring_nil].
Qed.

Lemma last_split_substring (s : str) (from : nat) (ms : list mres) :
  substring (last (split_go s from ms) []) s.
Proof.
  revert from. induction ms as [|m ms IH]; intro from.
  - apply slice_substring.
  - change (split_go s from (m :: ms))
      with (slice s from (m_start m) :: split_go s (m_stop m) ms).
    specialize (IH (m_stop m)).
    destruct (split_go s (m_stop m) ms) eqn:E; [|exact IH].
    destruct ms; discriminate.
Qed.

Lemma after_colon_substring (line : str) : substring (after_colon line) line.
Proof.
  unfold after_colon, split.
  eapply substring_trans; [apply strip_by_substring|].
  apply last_split_substring.
Qed.

Lemma extract_first_field_step line lines field :
  extract_first_field (line :: lines) field
  = match match_ IGNORECASE (field_pattern field) line with
    | None => extract_first_field lines field
    | Some m =>
        let value := strip_chars (u " .:-") (group line m 1) in
        let normalized := lower (strip_chars (u " ,:-") value) in
        if length value <? 3 then extract_first_field lines field
        else if existsb (eqs normalized)
                  (ul ["the"; "the learner"; "learner"; "sub strand"; "strand"]%string)
        then extract_first_field lines field
        else if startswith normalized (u "the learner")
        then extract_first_field lines field
        else if found (search IGNORECASE
                         (u "summary of|sub strands|grade\s*\d|\.\.\.") value)
        then extract_first_field lines field
        else value
    end.
Proof. reflexivity. Qed.

Lemma extract_first_field_verbatim lines field :
  extract_first_field lines field = []
  \/ (substring_of_some lines (extract_first_field lines field)
      /\ 3 <= length (extract_first_field lines field)
      /\ trimmed (fun c => mem c (u " .:-")) (extract_first_field lines field)).
Proof.
  induction lines as [|line lines IH]; [now left|].
  assert (W : extract_first_field lines field = []
              \/ (substring_of_some (line :: lines) (extract_first_field lines field)
                  /\ 3 <= length (extract_first_field lines field)
                  /\ trimmed (fun c => mem c (u " .:-"))
                       (extract_first_field lines field))).
  { destruct IH as [E | ((l & Hl & S) & L & T)]; [now left | right].
    split; [exists l; split; [now right | exact S] | now split]. }
  rewrite extract_first_field_step.
  destruct (match_ IGNORECASE (field_pattern field) line) as [m|]; [|exact W].
  cbv zeta.
  set (value := strip_chars (u " .:-") (group line m 1)).
  destruct (length value <? 3) eqn:L; [exact W|].
  destruct (existsb _ _); [exact W|].
  destruct (startswith _ _); [exact W|].
  destruct (found _); [exact W|].
  right. split; [|split].
  - exists line. split; [now left|].
    eapply substring_trans; [apply strip_by_substring | apply group_substring].
  - now apply Nat.ltb_ge in L.
  - apply strip_by_trimmed.
Qed.

Lemma first_or_result (p : str -> bool) (l : list str) (v : str) :
  first_or p l v = v \/ (In (first_or p l v) l /\ p (first_or p l v) = true).
Proof.
  unfold first_or. destruct (find p l) eqn:F; [right | now left].
  now apply find_some in F.
Qed.

Lemma labelled_or_keyword_verbatim label keywords lines x :
  In x (labelled_or_keyword label keywords lines) ->
  x <> [] -> substring_of_some lines x.
Proof.
  unfold labelled_or_keyword. intros H N.
  apply in_flat_map in H as (line & Hl & H). exists line. split; [exact Hl|].
  destruct (found (search IGNORECASE label line)).
  - destruct (nonempty (after_colon line)); [|contradiction].
    destruct H as [<- | []]. apply after_colon_substring.
  - destruct (found (search IGNORECASE keywords line)); [|contradiction].
    destruct H as [<- | []]. apply substring_refl.
Qed.

(** The strand, the sub-strand, the competencies and the values are taken
    from the lines as they stand: each is empty or a run of consecutive
    characters of one line.  A labelled field value has at least 3
    characters and none of space, full stop, colon and hyphen at either
    end; a strand or sub-strand found without a label is a whole line
    that looks like a heading. *)
Theorem fields_are_taken_verbatim (lines : list str) :
  (forall field,
     extract_first_field lines field = []
     \/ (substring_of_some lines (extract_first_field lines field)
         /\ 3 <= length (extract_first_field lines field)
         /\ trimmed (fun c => mem c (u " .:-"))
              (extract_first_field lines field)))
  /\ (let '(strand, substrand) := extract_strand_substrand lines in
      (strand = [] \/ substring_of_some lines strand)
      /\ (substrand = [] \/ substring_of_some lines substrand)
      /\ (extract_first_field lines (u "Strand") = [] -> strand <> [] ->
          In strand lines /\ looks_like_heading strand = true)
      /\ (extract_first_field lines (u "Sub-strand") = [] -> substrand <> [] ->
          In substrand lines /\ looks_like_heading substrand = true))
  /\ (forall x, In x (extract_competencies lines) -> x <> [] ->
        substring_of_some lines x)
  /\ (forall x, In x (extract_values lines) -> x <> [] ->
        substring_of_some lines x).
Proof.
  split; [intro field; apply extract_first_field_verbatim|].
  split; [|split].
  - unfold extract_strand_substrand. cbv zeta.
    set (s0 := extract_first_field lines (u "Strand")).
    set (ss0 := extract_first_field lines (u "Sub-strand")).
    set (headings := filter looks_like_heading lines).
    assert (Hh : forall x, In x headings ->
                   In x lines /\ looks_like_heading x = true)
      by (intros x Hx; now apply filter_In in Hx).
    assert (Hsub : forall x, In x lines -> substring_of_some lines x)
      by (intros x Hx; exists x; split; [exact Hx | apply substring_refl]).
    set (strand := if negb (nonempty s0) then first_or _ headings s0 else s0).
    assert (S1 : (strand = [] \/ substring_of_some lines strand)
                 /\ (s0 = [] -> strand <> [] ->
                     In strand lines /\ looks_like_heading strand = true)).
    { unfold strand. destruct s0 as [|c s0'] eqn:E0; cbn [nonempty negb].
      - match goal with |- context [first_or ?p headings []] =>
          destruct (first_or_result p headings []) as [-> | [Hin _]]
        end.
        + split; [now left | congruence].
        + apply Hh in Hin. split; [right; now apply Hsub | intros _ _; exact Hin].
      - split; [|discriminate].
        destruct (extract_first_field_verbatim lines (u "Strand")) as [F | [F _]];
          fold s0 in F; rewrite E0 in F; [discriminate | now right]. }
    set (substrand := if negb (nonempty ss0) && nonempty strand then _ else ss0).
    assert (S2 : (substrand = [] \/ substring_of_some lines substrand)
                 /\ (ss0 = [] -> substrand <> [] ->
                     In substrand lines /\ looks_like_heading substrand = true)).
    { unfold substrand. destruct ss0 as [|c ss0'] eqn:E0; cbn [nonempty negb andb].
      - destruct (nonempty strand); [|split; [now left | congruence]].
        destruct (match_ NOFLAG (u "^(\d+\.\d+)\b") strand) as [parent|];
          [|split; [now left | congruence]].
        match goal with |- context [first_or ?p headings []] =>
          destruct (first_or_result p headings []) as [-> | [Hin _]]
        end.
        + split; [now left | congruence].
        + apply Hh in Hin. split; [right; now apply Hsub | intros _ _; exact Hin].
      - split; [|discriminate].
        destruct (extract_first_field_verbatim lines (u "Sub-strand"))
          as [F | [F _]];
          fold ss0 in F; rewrite E0 in F; [discriminate | now right]. }
    destruct S1 as [A1 B1], S2 as [A2 B2].
    split; [exact A1|]. split; [exact A2|]. split; [exact B1 | exact B2].
  - intros x H N. apply firstn_incl, dedup_by_incl in H.
    exact (labelled_or_keyword_verbatim _ _ _ _ H N).
  - intros x H N. apply firstn_incl, dedup_by_incl in H.
    exact (labelled_or_keyword_verbatim _ _ _ _ H N).
Qed.

Lemma fields_verbatim_witness :
  substring_of_some (clean_lines labelled_then_free) (u "unity").
Proof.
  destruct (fields_are_taken_verbatim (clean_lines labelled_then_free))
    as (_ & _ & _ & V).
  apply V; [vm_compute; left; reflexivity | discriminate].
Defined.

End Verbatim.

(** ** Replacing runs of one class of characters *)

Section Runs.
Import Py Re.

Variable f : flags.
Variable r : re.
Variable p : char -> bool.
Variable lo : nat.
Variable repl : str.

Hypothesis lo_pos : 1 <= lo.
Hypothesis run_r :
  forall k cu cp,
    run f r k cu cp
    = rep_loop (one p) true lo None k (S (length (rest cu))) 0 cu cp.

Lemma run_len_le (s : str) : run_len p s <= length s.
Proof.
  induction s as [|c s IH]; simpl; [lia|]. destruct (p c); simpl; lia.
Qed.

Lemma forward_rest (m : nat) (cu : cursor) :
  rest (forward m cu) = skipn m (rest cu).
Proof.
  revert cu. induction m as [|m IH]; intro cu; [reflexivity|].
  destruct cu as [pv [|c s] i]; simpl; [reflexivity|].
  unfold advance. simpl. now rewrite IH.
Qed.

Lemma forward_idx (m : nat) (cu : cursor) :
  m <= length (rest cu) -> idx (forward m cu) = idx cu + m.
Proof.
  revert cu. induction m as [|m IH]; intros cu H; simpl; [lia|].
  destruct cu as [pv [|c s] i]; simpl in *; [lia|].
  unfold advance. simpl. rewrite IH; simpl; lia.
Qed.

Lemma greedy_loop (fuel n : nat) (cu : cursor) (cp : caps) :
  length (rest cu) < fuel ->
  rep_loop (one p) true lo None accept fuel n cu cp
  = if lo <=? n + run_len p (rest cu)
    then Some (forward (run_len p (rest cu)) cu, cp) else None.
Proof.
  revert n cu. induction fuel as [|fuel IH]; intros n cu H; [lia|].
  destruct cu as [pv s i]. simpl in H.
  cbn [rep_loop under]. unfold one at 1. unfold advance. cbn [rest idx prev].
  destruct s as [|c s].
  - cbn [run_len forward]. rewrite Nat.add_0_r.
    destruct (lo <=? n); reflexivity.
  - cbn [run_len]. destruct (p c).
    + rewrite IH by (simpl in *; lia). cbn [rest idx].
      replace (S i =? i) with false by (symmetry; apply Nat.eqb_neq; lia).
      replace (n + S (run_len p s)) with (S n + run_len p s) by lia.
      destruct (lo <=? S n + run_len p s) eqn:E.
      * cbn [forward]. unfold advance. cbn [rest]. reflexivity.
      * apply Nat.leb_gt in E.
        replace (lo <=? n) with false by (symmetry; apply Nat.leb_gt; lia).
        reflexivity.
    + rewrite Nat.add_0_r. cbn [forward]. destruct (lo <=? n); reflexivity.
Qed.

Lemma try_at_run (cu : cursor) :
  try_at f r accept cu
  = if lo <=? run_len p (rest cu)
    then Some {| m_start := idx cu;
                 m_end := forward (run_len p (rest cu)) cu;
                 m_caps := [] |}
    else None.
Proof.
  unfold try_at. rewrite run_r, greedy_loop by lia. simpl.
  destruct (lo <=? run_len p (rest cu)); reflexivity.
Qed.

Lemma search_from_seek (pv : option char) (s : str) (i : nat) :
  search_from f r pv s i
  = option_map (fun cu => {| m_start := idx cu;
                             m_end := forward (run_len p (rest cu)) cu;
                             m_caps := [] |})
               (seek p lo pv s i).
Proof.
  revert pv i. induction s as [|c s IH]; intros pv i.
  - cbn [search_from seek]. rewrite try_at_run. cbn [rest].
    destruct (lo <=? run_len p []); reflexivity.
  - cbn [search_from seek]. rewrite try_at_run. cbn [rest].
    destruct (lo <=? run_len p (c :: s)); [reflexivity | apply IH].
Qed.

Lemma flush_nil : flush lo repl [] = [].
Proof.
  unfold flush. replace (lo <=? length (@nil char)) with false; [reflexivity|].
  symmetry. apply Nat.leb_gt. simpl. lia.
Qed.

Lemma flush_short (acc : str) : length acc < lo -> flush lo repl acc = rev acc.
Proof.
  intro H. unfold flush.
  now replace (lo <=? length acc) with false by (symmetry; apply Nat.leb_gt; lia).
Qed.

Lemma flush_long (acc : str) : lo <= length acc -> flush lo repl acc = repl.
Proof.
  intro H. unfold flush.
  now replace (lo <=? length acc) with true by (symmetry; apply Nat.leb_le; lia).
Qed.

Lemma squeeze_long_run (s acc : str) :
  lo <= length acc + run_len p s ->
  squeeze_go p lo repl acc s
  = repl ++ squeeze_go p lo repl [] (skipn (run_len p s) s).
Proof.
  revert acc. induction s as [|c s IH]; intros acc H.
  - simpl in *. rewrite flush_long by lia. now rewrite flush_nil, app_nil_r.
  - cbn [squeeze_go run_len] in *. destruct (p c) eqn:E.
    + rewrite IH by (simpl; lia). reflexivity.
    + cbn [skipn squeeze_go]. rewrite E, flush_nil, flush_long by lia.
      reflexivity.
Qed.

Lemma squeeze_seek (s acc : str) (pv : option char) (i : nat) :
  (acc <> [] -> length acc + run_len p s < lo) ->
  match seek p lo pv s i with
  | None => squeeze_go p lo repl acc s = rev acc ++ s
  | Some cu =>
      exists a,
        s = a ++ rest cu /\ idx cu = i + length a
        /\ lo <= run_len p (rest cu)
        /\ squeeze_go p lo repl acc s
           = rev acc ++ a ++ repl
             ++ squeeze_go p lo repl [] (skipn (run_len p (rest cu)) (rest cu))
  end.
Proof.
  revert acc pv i. induction s as [|c s IH]; intros acc pv i H.
  - cbn [seek run_len].
    replace (lo <=? 0) with false by (symmetry; apply Nat.leb_gt; lia).
    cbn [squeeze_go]. rewrite app_nil_r.
    destruct acc as [|x acc]; [apply flush_nil|].
    apply flush_short. specialize (H ltac:(discriminate)). simpl in *. lia.
  - cbn [seek]. destruct (lo <=? run_len p (c :: s)) eqn:L.
    + apply Nat.leb_le in L.
      assert (acc = []) as ->.
      { destruct acc; [reflexivity|].
        specialize (H ltac:(discriminate)). simpl in *. lia. }
      exists []. cbn [rest idx app length]. split; [reflexivity|].
      split; [lia|]. split; [exact L|].
      apply squeeze_long_run. cbn [length Nat.add]. exact L.
    + apply Nat.leb_gt in L. cbn [run_len] in L, H. cbn [squeeze_go].
      destruct (p c) eqn:E.
      * specialize (IH (c :: acc) (Some c) (S i)).
        assert (G : c :: acc <> [] -> length (c :: acc) + run_len p s < lo).
        { intros _. destruct acc as [|x acc]; [simpl; lia|].
          specialize (H ltac:(discriminate)). simpl in *. lia. }
        specialize (IH G).
        destruct (seek p lo (Some c) s (S i)) as [cu|].
        -- destruct IH as (a & Es & Ei & Lr & Eq).
           exists (c :: a). cbn [app length]. split; [now rewrite <- Es|].
           split; [lia|]. split; [exact Lr|].
           rewrite Eq. cbn [rev]. now rewrite <- !app_assoc.
        -- rewrite IH. cbn [rev]. now rewrite <- app_assoc.
      * assert (F : flush lo repl acc = rev acc).
        { destruct acc as [|x acc]; [apply flush_nil|].
          apply flush_short. specialize (H ltac:(discriminate)). simpl in *. lia. }
        rewrite F.
        specialize (IH [] (Some c) (S i) ltac:(congruence)).
        destruct (seek p lo (Some c) s (S i)) as [cu|].
        -- destruct IH as (a & Es & Ei & Lr & Eq).
           exists (c :: a). cbn [app length]. split; [now rewrite <- Es|].
           split; [lia|]. split; [exact Lr|].
           rewrite Eq. reflexivity.
        -- rewrite IH. reflexivity.
Qed.

Lemma slice_to_end (pre s : str) :
  slice (pre ++ s) (length pre) (length (pre ++ s)) = s.
Proof.
  unfold slice. rewrite skipn_app, skipn_all, Nat.sub_diag. simpl.
  rewrite length_app. replace (length pre + length s - length pre) with (length s) by lia.
  apply firstn_all.
Qed.

Lemma slice_middle (pre a s : str) :
  slice (pre ++ a ++ s) (length pre) (length pre + length a) = a.
Proof.
  unfold slice. rewrite skipn_app, skipn_all, Nat.sub_diag. simpl.
  replace (length pre + length a - length pre) with (length a) by lia.
  rewrite firstn_app, firstn_all, Nat.sub_diag. simpl. apply app_nil_r.
Qed.

Lemma sub_runs_from (fuel : nat) (cu : cursor) (pre s : str) :
  s = pre ++ rest cu -> idx cu = length pre -> length (rest cu) < fuel ->
  sub_go s repl (length pre) (finditer_go fuel f r cu)
  = squeeze_go p lo repl [] (rest cu).
Proof.
  revert cu pre. induction fuel as [|fuel IH]; intros cu pre Es Ei Hf; [lia|].
  cbn [finditer_go]. unfold search_cursor. rewrite search_from_seek.
  pose proof (squeeze_seek (rest cu) [] (prev cu) (idx cu) ltac:(congruence)) as Q.
  destruct (seek p lo (prev cu) (rest cu) (idx cu)) as [cu1|]; cbn [option_map].
  - destruct Q as (a & Ea & Eia & L & Eq).
    pose proof (run_len_le (rest cu1)) as B.
    unfold m_stop. cbn [m_start m_end].
    rewrite forward_idx by exact B.
    replace (idx cu1 <? idx cu1 + run_len p (rest cu1)) with true
      by (symmetry; apply Nat.ltb_lt; lia).
    cbn [sub_go]. unfold m_stop. cbn [m_start m_end].
    rewrite forward_idx by exact B.
    rewrite Eq. cbn [rev app]. f_equal.
    + rewrite Es, Ea, Eia, Ei. apply slice_middle.
    + f_equal.
      set (n := run_len p (rest cu1)) in *.
      replace (idx cu1 + n) with (length (pre ++ a ++ firstn n (rest cu1))).
      * rewrite <- forward_rest. apply IH.
        -- rewrite forward_rest, Es, Ea, <- !app_assoc.
           now rewrite firstn_skipn.
        -- rewrite forward_idx by exact B. rewrite Eia, Ei, !length_app.
           rewrite firstn_length_le by exact B. lia.
        -- rewrite forward_rest, length_skipn.
           rewrite Ea, length_app in Hf. lia.
      * rewrite !length_app, firstn_length_le by exact B. lia.
  - cbn [sub_go]. rewrite Q. cbn [rev app]. rewrite Es. apply slice_to_end.
Qed.

Lemma sub_runs (s : str) :
  sub_go s repl 0 (finditer_go (S (length s)) f r (start_of s))
  = squeeze_go p lo repl [] s.
Proof.
  apply (sub_runs_from (S (length s)) (start_of s) [] s); simpl; auto.
Qed.

End Runs.

(** ** White space and line feeds *)

Section Spacing.
Import Py Re CbcParser.

Lemma compile_spaces :
  compile (u "\s+") = Rep true 1 None (Cset false [CSpace]).
Proof. vm_compute. reflexivity. Qed.

Lemma compile_newlines : compile (u "\n{3,}") = Rep true 3 None (Lit nl).
Proof. vm_compute. reflexivity. Qed.

Lemma squeeze_go_ext (p q : char -> bool) lo repl acc s :
  (forall c, p c = q c) ->
  squeeze_go p lo repl acc s = squeeze_go q lo repl acc s.
Proof.
  intro H. revert acc. induction s as [|c s IH]; intro acc; simpl; [reflexivity|].
  rewrite H. destruct (q c); now rewrite IH.
Qed.

Lemma squeeze_collapse (acc s : str) :
  squeeze_go isspace 1 [32%N] acc s
  = match acc with
    | [] => collapse false s
    | _ :: _ => 32%N :: collapse true s
    end.
Proof.
  revert acc. induction s as [|c s IH]; intro acc.
  - destruct acc; reflexivity.
  - cbn [squeeze_go collapse]. destruct (isspace c).
    + rewrite IH. destruct acc; reflexivity.
    + rewrite IH. destruct acc; reflexivity.
Qed.

(** [re.sub(r"\s+", " ", s)] turns every run of white space into one
    space. *)
Lemma sub_spaces (s : str) : sub NOFLAG (u "\s+") (u " ") s = collapse false s.
Proof.
  unfold sub, finditer. rewrite compile_spaces.
  rewrite (sub_runs NOFLAG (Rep true 1 None (Cset false [CSpace]))
             (fun c => xorb false (existsb (item_has NOFLAG c) [CSpace]))
             1 (u " ") (le_n 1) (fun k cu cp => eq_refl)).
  rewrite (squeeze_go_ext _ isspace).
  - apply (squeeze_collapse [] s).
  - intro c. simpl. now destruct (isspace c).
Qed.

Lemma all_newlines (acc : str) :
  Forall (fun c => eqc nl c = true) acc -> rev acc = repeat nl (length acc).
Proof.
  intro H. assert (E : acc = repeat nl (length acc)).
  { induction H as [|c acc Hc _ IH]; [reflexivity|].
    apply eqc_eq in Hc. subst c. simpl. now f_equal. }
  rewrite E at 1. clear. induction (length acc) as [|n IH]; [reflexivity|].
  simpl. rewrite IH. clear. induction n; simpl; [reflexivity | now f_equal].
Qed.

Lemma squeeze_cap (acc s : str) :
  Forall (fun c => eqc nl c = true) acc ->
  squeeze_go (eqc nl) 3 [nl; nl] acc s
  = repeat nl (Nat.min (length acc) 2)
    ++ cap_newlines (Nat.min (length acc) 2) s.
Proof.
  revert acc. induction s as [|c s IH]; intros acc H.
  - cbn [squeeze_go cap_newlines]. rewrite app_nil_r. unfold flush.
    destruct (3 <=? length acc) eqn:E.
    + apply Nat.leb_le in E. now replace (Nat.min (length acc) 2) with 2 by lia.
    + apply Nat.leb_gt in E. rewrite all_newlines by exact H.
      now replace (Nat.min (length acc) 2) with (length acc) by lia.
  - cbn [squeeze_go cap_newlines]. destruct (eqc nl c) eqn:C.
    + rewrite IH by (constructor; assumption). cbn [length].
      apply eqc_eq in C. subst c.
      destruct (Nat.min (length acc) 2 <? 2) eqn:E.
      * apply Nat.ltb_lt in E.
        replace (Nat.min (S (length acc)) 2) with (S (Nat.min (length acc) 2)) by lia.
        change (repeat nl (S (Nat.min (length acc) 2)))
          with (nl :: repeat nl (Nat.min (length acc) 2)).
        rewrite repeat_cons, <- app_assoc. reflexivity.
      * apply Nat.ltb_ge in E.
        now replace (Nat.min (S (length acc)) 2) with (Nat.min (length acc) 2) by lia.
    + rewrite (IH [] (Forall_nil _)). cbn [length Nat.min repeat app].
      f_equal. unfold flush. destruct (3 <=? length acc) eqn:E.
      * apply Nat.leb_le in E. now replace (Nat.min (length acc) 2) with 2 by lia.
      * apply Nat.leb_gt in E. rewrite all_newlines by exact H.
        now replace (Nat.min (length acc) 2) with (length acc) by lia.
Qed.

(** [re.sub(r"\n{3,}", "\n\n", s)] keeps two line feeds of every run of
    three or more. *)
Lemma sub_newlines (s : str) :
  sub NOFLAG (u "\n{3,}") [nl; nl] s = cap_newlines 0 s.
Proof.
  unfold sub, finditer. rewrite compile_newlines.
  rewrite (sub_runs NOFLAG (Rep true 3 None (Lit nl)) (same_char NOFLAG nl)
             3 [nl; nl] ltac:(lia) (fun k cu cp => eq_refl)).
  rewrite (squeeze_go_ext _ (eqc nl)) by reflexivity.
  apply (squeeze_cap [] s). constructor.
Qed.

Lemma collapse_chars (b : bool) (s : str) c :
  In c (collapse b s) -> c = 32%N \/ (In c s /\ isspace c = false).
Proof.
  revert b. induction s as [|x s IH]; intro b; simpl; [tauto|].
  destruct (isspace x) eqn:E.
  - destruct b; simpl.
    + intro H. apply IH in H. tauto.
    + intros [<- | H]; [now left | apply IH in H; tauto].
  - intros [<- | H]; [right; split; [now left | exact E] | apply IH in H; tauto].
Qed.

Lemma collapse_no_leading_space (s : str) t : collapse true s <> 32%N :: t.
Proof.
  induction s as [|x s IH]; simpl; [discriminate|].
  destruct (isspace x) eqn:E; [exact IH|].
  intros [= -> _]. discriminate.
Qed.

Lemma collapse_no_double (b : bool) (s : str) :
  ~ substring [32%N; 32%N] (collapse b s).
Proof.
  intros (a & t & E). revert b a E.
  induction s as [|x s IH]; intros b a E; simpl in E.
  - destruct a; discriminate.
  - destruct (isspace x) eqn:W.
    + destruct b; [now apply (IH true a)|].
      destruct a as [|y a]; simpl in E.
      * injection E as E. now apply collapse_no_leading_space in E.
      * injection E as _ E. now apply (IH true a).
    + destruct a as [|y a]; simpl in E.
      * injection E as -> _. discriminate.
      * injection E as _ E. now apply (IH false a).
Qed.

Lemma collapse_single_spaced (b : bool) (s : str) : single_spaced (collapse b s).
Proof.
  split; [|apply collapse_no_double].
  intros c H W. apply collapse_chars in H as [-> | [_ N]]; [reflexivity | congruence].
Qed.

Lemma single_spaced_substring (x y : str) :
  substring x y -> single_spaced y -> single_spaced x.
Proof.
  intros S [H1 H2]. split.
  - intros c Hc. apply H1. destruct S as (a & b & ->).
    apply in_or_app. right. apply in_or_app. now left.
  - intro D. apply H2. eapply substring_trans; eassumption.
Qed.

Lemma strip_collapse_tidy (s : str) : tidy (strip (collapse false s)).
Proof.
  split; [apply strip_by_trimmed|].
  eapply single_spaced_substring; [apply strip_by_substring|].
  apply collapse_single_spaced.
Qed.

Lemma tidy_question (x : str) : tidy x -> tidy (x ++ u "?").
Proof.
  intros [[T1 T2] [S1 S2]]. split; [split|split].
  - intros c r E. destruct x as [|y x]; simpl in E.
    + injection E as <- _. reflexivity.
    + injection E as <- _. now apply (T1 y x).
  - intros r c E. apply app_inj_tail in E as [_ <-]. reflexivity.
  - intros c H W. apply in_app_or in H as [H | [<- | []]];
      [now apply S1 | discriminate].
  - intros (a & b & E). apply S2.
    destruct (rev b) as [|z b'] eqn:Rb.
    + apply (f_equal (@rev char)) in Rb. rewrite rev_involutive in Rb.
      simpl in Rb. subst b. rewrite app_nil_r in E.
      change (a ++ [32%N; 32%N]) with (a ++ [32%N] ++ [32%N]) in E.
      rewrite !app_assoc in E. apply app_inj_tail in E as [_ E]. discriminate.
    + apply (f_equal (@rev char)) in Rb. rewrite rev_involutive in Rb.
      simpl in Rb. subst b.
      change (a ++ [32%N; 32%N] ++ rev b' ++ [z])
        with (a ++ ([32%N; 32%N] ++ rev b') ++ [z]) in E.
      rewrite app_assoc in E. apply app_inj_tail in E as [E _].
      exists a, (rev b'). now rewrite E.
Qed.

End Spacing.

(** ** Normal forms of the text and of what is extracted *)

Section NormalForms.
Import Py Re CbcParser.

Lemma replace_cr_go (fuel : nat) (s : str) :
  length s < fuel -> ~ In cr (replace_go fuel [cr] [nl] s).
Proof.
  revert s. induction fuel as [|fuel IH]; intros s H; [lia|].
  destruct s as [|c s]; [simpl; tauto|].
  cbn [replace_go].
  assert (E0 : startswith (c :: s) [cr] = eqc cr c)
    by (cbn [startswith]; destruct s; now rewrite andb_true_r).
  rewrite E0. destruct (eqc cr c) eqn:E.
  - cbn [length skipn app]. intro F. destruct F as [F | F]; [discriminate|].
    revert F. apply IH. simpl in H. lia.
  - intro F. destruct F as [F | F].
    + subst c. unfold eqc in E. rewrite N.eqb_refl in E. discriminate.
    + revert F. apply IH. simpl in H. lia.
Qed.

Lemma cap_newlines_incl (k : nat) (s : str) c :
  In c (cap_newlines k s) -> In c s.
Proof.
  revert k. induction s as [|x s IH]; intro k; cbn [cap_newlines]; [tauto|].
  destruct (eqc nl x) eqn:E.
  - destruct (k <? 2).
    + intro H. destruct H as [<- | H].
      * apply eqc_eq in E. now left.
      * right. eapply IH, H.
    + intro H. right. eapply IH, H.
  - intro H. destruct H as [<- | H]; [now left | right; eapply IH, H].
Qed.

Lemma cap_newlines_lead (k : nat) (s : str) :
  k <= 2 -> run_len (eqc nl) (cap_newlines k s) <= 2 - k.
Proof.
  revert k. induction s as [|x s IH]; intros k H; cbn [cap_newlines run_len];
    [lia|].
  destruct (eqc nl x) eqn:E.
  - destruct (k <? 2) eqn:K.
    + apply Nat.ltb_lt in K. cbn [run_len].
      replace (eqc nl nl) with true by reflexivity.
      specialize (IH (S k) ltac:(lia)). lia.
    + apply Nat.ltb_ge in K. specialize (IH k H). lia.
  - cbn [run_len]. rewrite E. lia.
Qed.

Lemma cap_newlines_no_triple (k : nat) (s : str) :
  k <= 2 -> ~ substring [nl; nl; nl] (cap_newlines k s).
Proof.
  intros H (a & t & E). revert k a H E.
  induction s as [|x s IH]; intros k a H E; cbn [cap_newlines] in E.
  - destruct a; discriminate.
  - destruct (eqc nl x) eqn:X.
    + destruct (k <? 2) eqn:K.
      * apply Nat.ltb_lt in K. destruct a as [|y a]; cbn [app] in E.
        -- injection E as E.
           pose proof (cap_newlines_lead (S k) s ltac:(lia)) as L.
           rewrite E in L. cbn [run_len] in L.
           replace (eqc nl nl) with true in L by reflexivity. lia.
        -- injection E as _ E. now apply (IH (S k) a ltac:(lia)).
      * now apply (IH k a).
    + destruct a as [|y a]; cbn [app] in E.
      * injection E as -> _. discriminate.
      * injection E as _ E. now apply (IH 0 a ltac:(lia)).
Qed.

Lemma normalize_text_eq (text : str) :
  normalize_text text
  = cap_newlines 0
      (replace [cr] [nl]
         (fold_left (fun t '(old, new) => replace old new t) replacements text)).
Proof. unfold normalize_text. cbv zeta. apply sub_newlines. Qed.

(** The normalized text holds no carriage return and nowhere three line
    feeds in a row. *)
Theorem normalize_text_line_feeds (text : str) :
  ~ In cr (normalize_text text)
  /\ ~ substring [nl; nl; nl] (normalize_text text).
Proof.
  rewrite normalize_text_eq. split.
  - intro H. apply cap_newlines_incl in H. revert H.
    unfold replace. apply replace_cr_go. lia.
  - apply cap_newlines_no_triple. lia.
Qed.

Lemma filter_visible_collapse (b : bool) (s : str) :
  filter (fun c => negb (isspace c)) (collapse b s)
  = filter (fun c => negb (isspace c)) s.
Proof.
  revert b. induction s as [|x s IH]; intro b; simpl; [reflexivity|].
  destruct (isspace x) eqn:E.
  - destruct b; simpl; apply IH.
  - simpl. rewrite E. simpl. now rewrite IH.
Qed.

Lemma filter_all_out {A} (p : A -> bool) (l : list A) :
  Forall (fun c => p c = true) l -> filter (fun c => negb (p c)) l = [].
Proof.
  induction 1 as [|x l Hx _ IH]; simpl; [reflexivity|]. now rewrite Hx.
Qed.

Lemma filter_visible_strip (s : str) :
  filter (fun c => negb (isspace c)) (strip s)
  = filter (fun c => negb (isspace c)) s.
Proof.
  unfold strip.
  destruct (strip_by_split isspace s) as (pre & post & E & F1 & F2).
  rewrite E at 2. rewrite !filter_app.
  now rewrite (filter_all_out _ _ F1), (filter_all_out _ _ F2), app_nil_r.
Qed.

Lemma trimmed_two_visible (x : str) :
  trimmed isspace x -> 2 <= length x ->
  2 <= length (filter (fun c => negb (isspace c)) x).
Proof.
  intros [T1 T2] L. destruct x as [|c x]; [simpl in L; lia|].
  pose proof (T1 c x eq_refl) as Hc.
  destruct (rev x) as [|d y] eqn:R.
  - apply (f_equal (@rev char)) in R. rewrite rev_involutive in R.
    subst x. simpl in L. lia.
  - apply (f_equal (@rev char)) in R. rewrite rev_involutive in R.
    simpl in R. subst x.
    pose proof (T2 (c :: rev y) d eq_refl) as Hd.
    simpl. rewrite Hc. simpl. rewrite filter_app, length_app. simpl.
    rewrite Hd. simpl. lia.
Qed.

Lemma meaningful_line_long (line : str) :
  meaningful_line line = true -> 2 <= length (strip line).
Proof.
  unfold meaningful_line. cbv zeta.
  destruct (negb (nonempty (strip line))); [discriminate|].
  destruct (found _); [discriminate|].
  destruct (found _); [discriminate|].
  destruct (length (strip line) <? 2) eqn:L; [discriminate|].
  intros _. now apply Nat.ltb_ge in L.
Qed.

Lemma tidy_no_newline (x : str) : tidy x -> ~ In nl x.
Proof.
  intros [_ [S _]] H. specialize (S nl H eq_refl). discriminate.
Qed.

(** Every line that [clean_lines] returns is in normal form: no white
    space at either end, single spaces inside, no line feed, and at
    least 2 characters. *)
Theorem clean_lines_are_tidy (text line : str) :
  In line (clean_lines text) ->
  tidy line /\ 2 <= length line /\ ~ In nl line.
Proof.
  unfold clean_lines. cbv zeta. intro H.
  apply in_map_iff in H as (l1 & <- & H).
  apply filter_In in H as [_ M]. rewrite sub_spaces.
  pose proof (strip_collapse_tidy l1) as T.
  split; [exact T|]. split; [|now apply tidy_no_newline].
  apply meaningful_line_long in M.
  pose proof (trimmed_two_visible _ (strip_by_trimmed isspace l1) M) as V.
  fold (strip l1) in V. rewrite filter_visible_strip in V.
  rewrite <- (filter_visible_collapse false), <- filter_visible_strip in V.
  eapply Nat.le_trans; [exact V | apply filter_length_le].
Qed.

Lemma clean_lines_tidy_witness :
  tidy (u "Strand: Numbers") /\ 2 <= length (u "Strand: Numbers")
  /\ ~ In nl (u "Strand: Numbers").
Proof.
  apply (clean_lines_are_tidy scenario_text).
  vm_compute. left. reflexivity.
Defined.

Lemma unique_questions_tidy seen questions q :
  In q (unique_questions seen questions) -> tidy q.
Proof.
  revert seen. induction questions as [|a rest IH]; intro seen; [intros []|].
  rewrite unique_questions_step. cbv zeta. rewrite sub_spaces.
  destruct (negb (existsb _ seen) && _); [|apply IH].
  intros [<- | H]; [|eapply IH, H].
  destruct (negb (endswith _ _)); [apply tidy_question|];
    apply strip_collapse_tidy.
Qed.

Lemma unique_experiences_tidy seen experiences e :
  In e (unique_experiences seen experiences) -> tidy e.
Proof.
  revert seen. induction experiences as [|a rest IH]; intro seen; [intros []|].
  rewrite unique_experiences_step. cbv zeta. rewrite sub_spaces.
  destruct (15 <=? _); [|apply IH].
  destruct (negb (existsb _ seen)); [|apply IH].
  intros [<- | H]; [apply strip_collapse_tidy | eapply IH, H].
Qed.

(** Every question and every experience returned stands on one line in
    normal form: no white space at either end, and no white space inside
    but single spaces. *)
Theorem questions_and_experiences_are_tidy (lines : list str) (text : str) :
  (forall q, In q (extract_question_lines lines text) ->
     tidy q /\ ~ In nl q)
  /\ (forall e, In e (extract_suggested_learning_experiences text) ->
        tidy e /\ ~ In nl e).
Proof.
  split.
  - intros q H. apply firstn_incl, unique_questions_tidy in H.
    split; [exact H | now apply tidy_no_newline].
  - intros e H. apply firstn_incl, unique_experiences_tidy in H.
    split; [exact H | now apply tidy_no_newline].
Qed.

Lemma questions_tidy_witness :
  tidy (u "Values: unity How do we share food equally?").
Proof.
  apply (proj1 (questions_and_experiences_are_tidy
                  (clean_lines labelled_then_free) labelled_then_free)).
  vm_compute. right. right. right. left. reflexivity.
Defined.

End NormalForms.
